(** * The Node.js prompt module of starship (src/modules/nodejs.rs)

    A shallow embedding of [module], [get_engines_version] and
    [check_engines_version], together with models of the collaborators the
    module calls: the directory scanner, [utils::exec_cmd],
    [utils::read_file], [StringFormatter], and the [regex], [semver] and
    [serde_json] crates. *)

From Stdlib Require Import String Ascii List NArith Bool Lia.
Import ListNotations.
Open Scope string_scope.
Set Warnings "-register-all".


(** ** Strings

    Rust strings are modelled as Rocq [string]s, whose characters are read
    as the code points U+0000 to U+00FF. *)

Definition is_ascii_digit (c : ascii) : bool :=
  let n := nat_of_ascii c in Nat.leb 48 n && Nat.leb n 57.

(** [char::is_whitespace] on the code points U+0000 to U+00FF. *)
Definition is_whitespace (c : ascii) : bool :=
  let n := nat_of_ascii c in
  (Nat.leb 9 n && Nat.leb n 13) || Nat.eqb n 32 || Nat.eqb n 133 || Nat.eqb n 160.

Fixpoint trim_start (s : string) : string :=
  match s with
  | EmptyString => EmptyString
  | String c s' => if is_whitespace c then trim_start s' else s
  end.

Definition rev_string (s : string) : string :=
  string_of_list_ascii (rev (list_ascii_of_string s)).

Definition trim_end (s : string) : string := rev_string (trim_start (rev_string s)).

(** [str::trim]. *)
Definition trim (s : string) : string := trim_end (trim_start s).

(** ** Results of Rust code that may panic *)

Inductive Outcome (A : Type) : Type :=
| Ret (a : A)
| Panic (msg : string).
Arguments Ret {A} a.
Arguments Panic {A} msg.

Definition outcome_bind {A B} (m : Outcome A) (k : A -> Outcome B) : Outcome B :=
  match m with
  | Ret a => k a
  | Panic msg => Panic msg
  end.

Notation "'let!' x ':=' m 'in' k" := (outcome_bind m (fun x => k))
  (at level 200, x name, m at level 100, k at level 200).

(** [Option::unwrap]. *)
Definition unwrap {A} (o : option A) : Outcome A :=
  match o with
  | Some a => Ret a
  | None => Panic "called `Option::unwrap()` on a `None` value"
  end.

(** ** The regex [\d+\.\d+\.\d+]

    Modelled from the spec: the first (leftmost) match of the pattern, with
    the greedy [\d+] of the [regex] crate. On code points below U+0100 the
    Unicode class [\d] is exactly the ASCII digits. *)

Fixpoint span_digits (s : string) : string * string :=
  match s with
  | EmptyString => (EmptyString, EmptyString)
  | String c s' =>
      if is_ascii_digit c then
        let (d, r) := span_digits s' in (String c d, r)
      else (EmptyString, s)
  end.

Fixpoint all_digits (s : string) : bool :=
  match s with
  | EmptyString => true
  | String c s' => is_ascii_digit c && all_digits s'
  end.

Definition nonempty (s : string) : bool :=
  match s with EmptyString => false | String _ _ => true end.

(** After a digit run, expect a dot and return what follows it. *)
Definition after_dot (s : string) : option string :=
  match s with
  | String c r => if Ascii.eqb c "."%char then Some r else None
  | EmptyString => None
  end.

(** The match of the pattern starting at the first character of [s]. *)
Definition match_at (s : string) : option string :=
  let (d1, r1) := span_digits s in
  if nonempty d1 then
    match after_dot r1 with
    | None => None
    | Some r1' =>
        let (d2, r2) := span_digits r1' in
        if nonempty d2 then
          match after_dot r2 with
          | None => None
          | Some r2' =>
              let (d3, _) := span_digits r2' in
              if nonempty d3 then Some (d1 ++ "." ++ d2 ++ "." ++ d3) else None
          end
        else None
    end
  else None.

(** The leftmost match. *)
Fixpoint find_triple (s : string) : option string :=
  match match_at s with
  | Some m => Some m
  | None =>
      match s with
      | EmptyString => None
      | String _ s' => find_triple s'
      end
  end.

(** A substring matching [\d+\.\d+\.\d+], as the spec defines the pattern:
    three non-empty digit strings joined by dots. *)
Definition triple_shape (m : string) : Prop :=
  exists a b c, m = a ++ "." ++ b ++ "." ++ c /\
    nonempty a = true /\ all_digits a = true /\ nonempty b = true /\ all_digits b = true /\
    nonempty c = true /\ all_digits c = true.

(** The precondition of section 4.3: the string contains such a substring. *)
Definition contains_triple (s : string) : Prop :=
  exists pre m post, s = pre ++ m ++ post /\ triple_shape m.

(** [Regex::captures]: the pattern has no group, so the captures hold the
    whole match only, as group 0. *)
Definition Captures := list (option string).

Definition regex_captures (text : string) : option Captures :=
  match find_triple text with
  | Some m => Some [Some m]
  | None => None
  end.

(** [Captures::get]. *)
Definition captures_get (caps : Captures) (i : nat) : option string :=
  match nth_error caps i with
  | Some g => g
  | None => None
  end.

(** ** The [semver] crate interface *)

Class Semver := {
  VersionReq : Type;
  Version : Type;
  VersionReq_parse : string -> option VersionReq;
  Version_parse : string -> option Version;
  req_matches : VersionReq -> Version -> bool
}.

(** ** [check_engines_version] (nodejs.rs, lines 83-103) *)

Section Check.
Context `{SV : Semver}.

Definition check_engines_version (nodejs_version : string)
    (engines_version : option string) : Outcome bool :=
  match engines_version with
  | None => Ret true
  | Some ev =>
      match VersionReq_parse ev with
      | None => Ret true
      | Some r =>
          let! caps := unwrap (regex_captures nodejs_version) in
          let! version := unwrap (captures_get caps 0) in
          match Version_parse version with
          | None => Ret true
          | Some v => Ret (req_matches r v)
          end
      end
  end.

End Check.

(** ** A model of the [semver] crate

    Modelled from the spec (section 4.3): versions are [MAJOR.MINOR.PATCH]
    triples of numbers below 2^64 written without leading zeros; a range is
    a comma-separated conjunction of comparators [op MAJOR[.MINOR[.PATCH]]]
    with [op] one of [>=], [<=], [>], [<], [=], [~], [^] (default [^]) and
    [*], [x] or [X] as wildcard components; a bare wildcard or the empty
    string matches everything. The matching rules are the crate's
    [matches_exact], [matches_greater], [matches_less], [matches_tilde] and
    [matches_caret]. Pre-release and build metadata are outside this model:
    the version passed to [Version::parse] by [check_engines_version] is a
    match of [\d+\.\d+\.\d+], which never has them. *)

Module SemverModel.

Fixpoint split_on (sep : ascii) (s : string) : list string :=
  match s with
  | EmptyString => [EmptyString]
  | String c s' =>
      if Ascii.eqb c sep then EmptyString :: split_on sep s'
      else match split_on sep s' with
           | [] => [String c EmptyString]
           | w :: ws => String c w :: ws
           end
  end.

Fixpoint digits_value (acc : N) (s : string) : N :=
  match s with
  | EmptyString => acc
  | String c s' => digits_value (acc * 10 + N.of_nat (nat_of_ascii c - 48)) s'
  end.

Definition has_leading_zero (s : string) : bool :=
  match s with
  | String c (String _ _) => Ascii.eqb c "0"%char
  | _ => false
  end.

(** A numeric identifier: a [u64] without leading zeros. *)
Definition parse_numeric (s : string) : option N :=
  if nonempty s && all_digits s && negb (has_leading_zero s) then
    let n := digits_value 0 s in
    if N.ltb n (2 ^ 64) then Some n else None
  else None.

Record Version := mkVersion { major : N; minor : N; patch : N }.

Definition Version_parse (s : string) : option Version :=
  match split_on "."%char s with
  | [a; b; c] =>
      match parse_numeric a, parse_numeric b, parse_numeric c with
      | Some x, Some y, Some z => Some (mkVersion x y z)
      | _, _, _ => None
      end
  | _ => None
  end.

Inductive Op := Exact | Greater | GreaterEq | Less | LessEq | Tilde | Caret | Wildcard.

Record Comparator := mkComparator {
  op : Op; cmp_major : N; cmp_minor : option N; cmp_patch : option N }.

Definition is_wildcard (s : string) : bool :=
  String.eqb s "*" || String.eqb s "x" || String.eqb s "X".

Definition first_is (ch : ascii) (s : string) : option string :=
  match s with
  | String c r => if Ascii.eqb c ch then Some r else None
  | EmptyString => None
  end.

Definition strip_op (s : string) : option Op * string :=
  match first_is ">"%char s with
  | Some r =>
      match first_is "="%char r with
      | Some r' => (Some GreaterEq, r')
      | None => (Some Greater, r)
      end
  | None =>
  match first_is "<"%char s with
  | Some r =>
      match first_is "="%char r with
      | Some r' => (Some LessEq, r')
      | None => (Some Less, r)
      end
  | None =>
  match first_is "="%char s with
  | Some r => (Some Exact, r)
  | None =>
  match first_is "~"%char s with
  | Some r => (Some Tilde, r)
  | None =>
  match first_is "^"%char s with
  | Some r => (Some Caret, r)
  | None => (None, s)
  end end end end end.

(** A minor or patch component: [Some None] for a wildcard. *)
Definition parse_component (s : string) : option (option N) :=
  if is_wildcard s then Some None
  else match parse_numeric s with
       | Some n => Some (Some n)
       | None => None
       end.

Definition final_op (o : option Op) (wild : bool) : Op :=
  match o with
  | Some o => o
  | None => if wild then Wildcard else Caret
  end.

Definition parse_comparator (s : string) : option Comparator :=
  let (o, rest) := strip_op (trim s) in
  match split_on "."%char (trim_start rest) with
  | [a] =>
      match parse_numeric a with
      | Some x => Some (mkComparator (final_op o false) x None None)
      | None => None
      end
  | [a; b] =>
      match parse_numeric a, parse_component b with
      | Some x, Some y => Some (mkComparator (final_op o (is_wildcard b)) x y None)
      | _, _ => None
      end
  | [a; b; c] =>
      match parse_numeric a, parse_component b, parse_component c with
      | Some x, Some None, Some None =>
          Some (mkComparator (final_op o true) x None None)
      | Some x, Some (Some y), Some z =>
          Some (mkComparator (final_op o (is_wildcard c)) x (Some y) z)
      | _, _, _ => None
      end
  | _ => None
  end.

Fixpoint parse_all (l : list string) : option (list Comparator) :=
  match l with
  | [] => Some []
  | p :: ps =>
      match parse_comparator p, parse_all ps with
      | Some c, Some cs => Some (c :: cs)
      | _, _ => None
      end
  end.

(** [VersionReq::parse]; the empty conjunction is the wildcard. *)
Definition VersionReq_parse (s : string) : option (list Comparator) :=
  let t := trim s in
  if String.eqb t EmptyString || is_wildcard t then Some []
  else parse_all (split_on ","%char t).

Definition opt_eq (o : option N) (x : N) : bool :=
  match o with None => true | Some m => N.eqb x m end.

Definition matches_exact (c : Comparator) (v : Version) : bool :=
  N.eqb (major v) (cmp_major c) && opt_eq (cmp_minor c) (minor v)
  && opt_eq (cmp_patch c) (patch v).

Definition matches_greater (c : Comparator) (v : Version) : bool :=
  if negb (N.eqb (major v) (cmp_major c)) then N.ltb (cmp_major c) (major v) else
  match cmp_minor c with
  | None => false
  | Some mi =>
      if negb (N.eqb (minor v) mi) then N.ltb mi (minor v) else
      match cmp_patch c with
      | None => false
      | Some pa => if negb (N.eqb (patch v) pa) then N.ltb pa (patch v) else false
      end
  end.

Definition matches_less (c : Comparator) (v : Version) : bool :=
  if negb (N.eqb (major v) (cmp_major c)) then N.ltb (major v) (cmp_major c) else
  match cmp_minor c with
  | None => false
  | Some mi =>
      if negb (N.eqb (minor v) mi) then N.ltb (minor v) mi else
      match cmp_patch c with
      | None => false
      | Some pa => if negb (N.eqb (patch v) pa) then N.ltb (patch v) pa else false
      end
  end.

Definition matches_tilde (c : Comparator) (v : Version) : bool :=
  if negb (N.eqb (major v) (cmp_major c)) then false else
  if negb (opt_eq (cmp_minor c) (minor v)) then false else
  match cmp_patch c with
  | Some pa => if negb (N.eqb (patch v) pa) then N.ltb pa (patch v) else true
  | None => true
  end.

Definition matches_caret (c : Comparator) (v : Version) : bool :=
  if negb (N.eqb (major v) (cmp_major c)) then false else
  match cmp_minor c with
  | None => true
  | Some mi =>
      match cmp_patch c with
      | None => if N.ltb 0 (cmp_major c) then N.leb mi (minor v) else N.eqb (minor v) mi
      | Some pa =>
          if N.ltb 0 (cmp_major c) then
            if negb (N.eqb (minor v) mi) then N.ltb mi (minor v)
            else if negb (N.eqb (patch v) pa) then N.ltb pa (patch v) else true
          else if N.ltb 0 mi then
            if negb (N.eqb (minor v) mi) then false
            else if negb (N.eqb (patch v) pa) then N.ltb pa (patch v) else true
          else N.eqb (minor v) mi && N.eqb (patch v) pa
      end
  end.

Definition matches_impl (c : Comparator) (v : Version) : bool :=
  match op c with
  | Exact | Wildcard => matches_exact c v
  | Greater => matches_greater c v
  | GreaterEq => matches_exact c v || matches_greater c v
  | Less => matches_less c v
  | LessEq => matches_exact c v || matches_less c v
  | Tilde => matches_tilde c v
  | Caret => matches_caret c v
  end.

(** [VersionReq::matches]. *)
Definition req_matches (r : list Comparator) (v : Version) : bool :=
  forallb (fun c => matches_impl c v) r.

Definition semver_model : Semver :=
  Build_Semver (list Comparator) Version VersionReq_parse Version_parse req_matches.

End SemverModel.

(** [check_engines_version] over the semver model. *)
Definition check_node := @check_engines_version SemverModel.semver_model.

Example check_node_ge : check_node "v12.0.0" (Some ">=12.0.0") = Ret true.
Proof. reflexivity. Qed.

Example check_node_lt : check_node "v12.0.0" (Some "<12.0.0") = Ret false.
Proof. reflexivity. Qed.

Example check_node_caret : check_node "v12.4.1" (Some "^10.0.0, >=8") = Ret false.
Proof. reflexivity. Qed.

Example check_node_range : check_node "v12.4.1" (Some ">=10.1, <13") = Ret true.
Proof. reflexivity. Qed.

(** ** Directory contents and the scanner

    Modelled from the spec (section 4.1): [Context::try_begin_scan] and
    [ScanDir::is_match] are not in src/. An entry is a regular file or a
    directory directly under the current directory, with its file type
    already resolved. *)

Record DirEntry := mkDirEntry { entry_name : string; entry_is_dir : bool }.

Fixpoint last_dot_suffix (s : string) : option string :=
  match s with
  | EmptyString => None
  | String c s' =>
      match last_dot_suffix s' with
      | Some x => Some x
      | None => if Ascii.eqb c "."%char then Some s' else None
      end
  end.

(** [Path::extension] of a file name: what follows the last dot, a leading
    dot excepted. *)
Definition file_extension (name : string) : option string :=
  match name with
  | EmptyString => None
  | String _ rest => last_dot_suffix rest
  end.

Definition in_list (s : string) (l : list string) : bool := existsb (String.eqb s) l.

Definition has_any_file_name (dc : list DirEntry) (files : list string) : bool :=
  existsb (fun e => negb (entry_is_dir e) && in_list (entry_name e) files) dc.

Definition has_any_extension (dc : list DirEntry) (exts : list string) : bool :=
  existsb (fun e => negb (entry_is_dir e) &&
    match file_extension (entry_name e) with
    | Some x => in_list x exts
    | None => false
    end) dc.

Definition has_any_folder (dc : list DirEntry) (folders : list string) : bool :=
  existsb (fun e => entry_is_dir e && in_list (entry_name e) folders) dc.

Record ScanDir := mkScanDir {
  scan_contents : list DirEntry;
  scan_files : list string;
  scan_extensions : list string;
  scan_folders : list string }.

Definition set_files (sd : ScanDir) (files : list string) : ScanDir :=
  mkScanDir (scan_contents sd) files (scan_extensions sd) (scan_folders sd).
Definition set_extensions (sd : ScanDir) (exts : list string) : ScanDir :=
  mkScanDir (scan_contents sd) (scan_files sd) exts (scan_folders sd).
Definition set_folders (sd : ScanDir) (folders : list string) : ScanDir :=
  mkScanDir (scan_contents sd) (scan_files sd) (scan_extensions sd) folders.

Definition is_match (sd : ScanDir) : bool :=
  has_any_extension (scan_contents sd) (scan_extensions sd)
  || has_any_file_name (scan_contents sd) (scan_files sd)
  || has_any_folder (scan_contents sd) (scan_folders sd).

(** ** [StringFormatter]

    Modelled from the spec (sections 3 and 4.4): the template is the ordered
    sequence of literal text and named placeholders, text groups carrying a
    style; a placeholder that no mapper resolves makes the whole render fail
    with a [FormatError] naming it. *)

Inductive Result (T E : Type) : Type :=
| Ok (t : T)
| Err (e : E).
Arguments Ok {T E} t.
Arguments Err {T E} e.

Definition and_then {T U E} (r : Result T E) (f : T -> Result U E) : Result U E :=
  match r with
  | Ok t => f t
  | Err e => Err e
  end.

Inductive StyleElement :=
| StyleText (s : string)
| StyleVariable (name : string).

Inductive FormatElement :=
| Text (s : string)
| Var (name : string)
| TextGroup (body : list FormatElement) (style : list StyleElement).

Record Segment := mkSegment { seg_style : option string; seg_value : string }.

Inductive FormatError :=
| UnknownVariable (name : string)
| MapperError (msg : string).

Definition format_error_to_string (e : FormatError) : string :=
  match e with
  | UnknownVariable n => "Unknown variable `" ++ n ++ "`"
  | MapperError m => m
  end.

Record StringFormatter := mkStringFormatter {
  sf_format : list FormatElement;
  sf_meta : string -> option string;
  sf_style : string -> option (Result string string);
  sf_vars : string -> option (Result string string) }.

Definition StringFormatter_new (format : list FormatElement)
    : Result StringFormatter FormatError :=
  Ok (mkStringFormatter format (fun _ => None) (fun _ => None) (fun _ => None)).

Definition map_meta (sf : StringFormatter) (f : string -> option string) : StringFormatter :=
  mkStringFormatter (sf_format sf) f (sf_style sf) (sf_vars sf).
Definition map_style (sf : StringFormatter) (f : string -> option (Result string string))
    : StringFormatter :=
  mkStringFormatter (sf_format sf) (sf_meta sf) f (sf_vars sf).
Definition map (sf : StringFormatter) (f : string -> option (Result string string))
    : StringFormatter :=
  mkStringFormatter (sf_format sf) (sf_meta sf) (sf_style sf) f.

Fixpoint resolve_style (sf : StringFormatter) (st : list StyleElement)
    : Result string FormatError :=
  match st with
  | [] => Ok EmptyString
  | StyleText s :: rest => and_then (resolve_style sf rest) (fun r => Ok (s ++ r))
  | StyleVariable n :: rest =>
      match sf_style sf n with
      | Some (Ok s) => and_then (resolve_style sf rest) (fun r => Ok (s ++ r))
      | Some (Err m) => Err (MapperError m)
      | None => Err (UnknownVariable n)
      end
  end.

Definition resolve_variable (sf : StringFormatter) (n : string)
    : Result string FormatError :=
  match sf_meta sf n with
  | Some v => Ok v
  | None =>
      match sf_vars sf n with
      | Some (Ok v) => Ok v
      | Some (Err m) => Err (MapperError m)
      | None => Err (UnknownVariable n)
      end
  end.

Fixpoint parse_element (sf : StringFormatter) (st : option string) (e : FormatElement)
    : Result (list Segment) FormatError :=
  match e with
  | Text s => Ok [mkSegment st s]
  | Var n => and_then (resolve_variable sf n) (fun v => Ok [mkSegment st v])
  | TextGroup body sty =>
      and_then (resolve_style sf sty) (fun s =>
        (fix go (l : list FormatElement) : Result (list Segment) FormatError :=
           match l with
           | [] => Ok []
           | x :: xs =>
               and_then (parse_element sf (Some s) x) (fun a =>
                 and_then (go xs) (fun b => Ok (app a b)))
           end) body)
  end.

Fixpoint parse_elements (sf : StringFormatter) (st : option string) (l : list FormatElement)
    : Result (list Segment) FormatError :=
  match l with
  | [] => Ok []
  | x :: xs =>
      and_then (parse_element sf st x) (fun a =>
        and_then (parse_elements sf st xs) (fun b => Ok (app a b)))
  end.

(** [StringFormatter::parse]. *)
Definition sf_parse (sf : StringFormatter) (default_style : option string)
    : Result (list Segment) FormatError :=
  parse_elements sf default_style (sf_format sf).

(** ** The module's environment and its effects

    Modelled from the spec (sections 4.2 and 6): the directory listing,
    [utils::exec_cmd] (the captured standard output, untrimmed, or nothing
    when the command cannot run) and [utils::read_file]. *)

Record CommandOutput := mkCommandOutput { stdout : string; stderr : string }.

Record Env := mkEnv {
  env_dir_contents : option (list DirEntry);
  env_exec : string -> list string -> option CommandOutput;
  env_read_file : string -> option string }.

Inductive Level := Warn | Debug.

Inductive Event :=
| EvExec (cmd : string) (args : list string)
| EvReadFile (path : string)
| EvLog (lvl : Level) (msg : string).

(** A computation in a function whose return type is [R]: it continues with
    a value, returns early ([return], [?]), or panics; it reads the
    environment and appends to the event log. *)
Inductive Step (R A : Type) : Type :=
| Continue (a : A)
| Exit (r : R)
| Crash (msg : string).
Arguments Continue {R A} a.
Arguments Exit {R A} r.
Arguments Crash {R A} msg.

Definition M (R A : Type) : Type := Env -> list Event -> Step R A * list Event.

Definition ret {R A} (a : A) : M R A := fun _ log => (Continue a, log).

Definition bind {R A B} (m : M R A) (k : A -> M R B) : M R B :=
  fun env log =>
    match m env log with
    | (Continue a, log') => k a env log'
    | (Exit r, log') => (Exit r, log')
    | (Crash msg, log') => (Crash msg, log')
    end.

Notation "x <- m ;; k" := (bind m (fun x => k))
  (at level 61, m at next level, right associativity).
Notation "m ;;; k" := (bind m (fun _ => k))
  (at level 61, right associativity).

(** [return r]. *)
Definition early_return {R A} (r : R) : M R A := fun _ log => (Exit r, log).

(** The [?] operator on an [Option] in a function returning an [Option]. *)
Definition question {R A} (o : option A) : M (option R) A :=
  match o with
  | Some a => ret a
  | None => early_return None
  end.

(** A value computed by code that may panic. *)
Definition lift {R A} (o : Outcome A) : M R A :=
  fun _ log =>
    match o with
    | Ret a => (Continue a, log)
    | Panic msg => (Crash msg, log)
    end.

(** A call of a function of return type [R]: its early return is its value. *)
Definition call {R R'} (f : M R R) : M R' R :=
  fun env log =>
    match f env log with
    | (Continue r, log') => (Continue r, log')
    | (Exit r, log') => (Continue r, log')
    | (Crash msg, log') => (Crash msg, log')
    end.

Definition exec_cmd {R} (cmd : string) (args : list string) : M R (option CommandOutput) :=
  fun env log => (Continue (env_exec env cmd args), log ++ [EvExec cmd args])%list.

Definition read_file {R} (path : string) : M R (option string) :=
  fun env log => (Continue (env_read_file env path), log ++ [EvReadFile path])%list.

(** [Context::try_begin_scan]: a scanner over the listing, or nothing when the
    directory cannot be read. *)
Definition try_begin_scan {R} : M R (option ScanDir) :=
  fun env log =>
    (Continue (option_map (fun dc => mkScanDir dc [] [] []) (env_dir_contents env)), log).

Definition log_warn {R} (msg : string) : M R unit :=
  fun _ log => (Continue tt, log ++ [EvLog Warn msg])%list.

(** [Path::join] of a file name. *)
Definition path_join (base name : string) : string :=
  match rev_string base with
  | EmptyString => name
  | String c _ => if Ascii.eqb c "/"%char then base ++ name else base ++ "/" ++ name
  end.

(** ** JSON values ([serde_json::Value]) *)

Inductive Value :=
| Null
| JBool (b : bool)
| Number (n : Z)
| JString (s : string)
| Array (l : list Value)
| Object (m : list (string * Value)).

(** [Value::get] with a string index: a key of an object. *)
Definition json_get (v : Value) (key : string) : option Value :=
  match v with
  | Object m =>
      match find (fun kv => String.eqb (fst kv) key) m with
      | Some (_, x) => Some x
      | None => None
      end
  | _ => None
  end.

Definition as_str (v : Value) : option string :=
  match v with
  | JString s => Some s
  | _ => None
  end.

(** ** The module (nodejs.rs) *)

Record NodejsConfig := mkNodejsConfig {
  format : list FormatElement;
  symbol : string;
  style : string;
  not_capable_style : string }.

Record Context := mkContext { current_dir : string; config : NodejsConfig }.

Record Module := mkModule { module_name : string; segments : list Segment }.

Definition new_module (name : string) : Module := mkModule name [].

Definition set_segments (m : Module) (segs : list Segment) : Module :=
  mkModule (module_name m) segs.

Section NodejsModule.
Context `{SV : Semver}.
(** [serde_json::from_str] into a [Value]. *)
Variable json_from_str : string -> option Value.

(** [get_engines_version] (lines 76-81). *)
Definition get_engines_version (base_dir : string) : M (option string) (option string) :=
  json_str_opt <- read_file (path_join base_dir "package.json") ;;
  json_str <- question json_str_opt ;;
  package_json <- question (json_from_str json_str) ;;
  engines <- question (json_get package_json "engines") ;;
  node <- question (json_get engines "node") ;;
  raw_version <- question (as_str node) ;;
  ret (Some raw_version).

(** The formatter of lines 42-62 before [parse]. *)
Definition nodejs_formatter (config : NodejsConfig) (nodejs_version : string)
    (in_engines_range : bool) (formatter : StringFormatter) : StringFormatter :=
  map (map_style (map_meta formatter
         (fun var => if String.eqb var "symbol" then Some (symbol config) else None))
       (fun variable =>
          if String.eqb variable "style" then
            if in_engines_range then Some (Ok (style config))
            else Some (Ok (not_capable_style config))
          else None))
      (fun variable =>
         if String.eqb variable "version" then Some (Ok (trim nodejs_version)) else None).

Definition render (config : NodejsConfig) (nodejs_version : string) (in_engines_range : bool)
    : Result (list Segment) FormatError :=
  and_then (StringFormatter_new (format config)) (fun formatter =>
    sf_parse (nodejs_formatter config nodejs_version in_engines_range formatter) None).

(** Lines 37-73 of [module]: the segment of a relevant directory. *)
Definition module_segment (context : Context) : M (option Module) (option Module) :=
  let module := new_module "nodejs" in
  let config := config context in
  out <- exec_cmd "node" ["--version"] ;;
  out <- question out ;;
  let nodejs_version := stdout out in
  engines_version <- call (get_engines_version (current_dir context)) ;;
  in_engines_range <- lift (check_engines_version nodejs_version engines_version) ;;
  match render config nodejs_version in_engines_range with
  | Ok segs => ret (Some (set_segments module segs))
  | Err error =>
      log_warn ("Error in module `nodejs`:" ++ String "010"%char (format_error_to_string error)) ;;;
      early_return None
  end.

(** [module] (lines 20-74). *)
Definition module (context : Context) : M (option Module) (option Module) :=
  scan1 <- try_begin_scan ;;
  scan1 <- question scan1 ;;
  let is_js_project :=
    is_match (set_folders (set_extensions (set_files scan1
      ["package.json"; ".node-version"]) ["js"; "mjs"; "cjs"; "ts"]) ["node_modules"]) in
  scan2 <- try_begin_scan ;;
  scan2 <- question scan2 ;;
  let is_esy_project := is_match (set_folders scan2 ["esy.lock"]) in
  if negb is_js_project || is_esy_project then early_return None else
  module_segment context.

(** Running [module]: its value, or a panic, and the events it caused. *)
Definition run_module (context : Context) (env : Env) : Outcome (option Module) * list Event :=
  match module context env [] with
  | (Continue r, log) => (Ret r, log)
  | (Exit r, log) => (Ret r, log)
  | (Crash msg, log) => (Panic msg, log)
  end.

(** The relevance test of lines 21-35 on a directory listing. *)
Definition is_relevant (dc : list DirEntry) : bool :=
  negb (negb (is_match (set_folders (set_extensions (set_files (mkScanDir dc [] [] [])
      ["package.json"; ".node-version"]) ["js"; "mjs"; "cjs"; "ts"]) ["node_modules"]))
    || is_match (set_folders (mkScanDir dc [] [] []) ["esy.lock"])).

End NodejsModule.

(** The value [get_engines_version] returns. *)
Definition engines_version_of `{SV : Semver} (json_from_str : string -> option Value)
    (env : Env) (dir : string) : option string :=
  match fst (get_engines_version json_from_str dir env []) with
  | Continue r | Exit r => r
  | Crash _ => None
  end.

(** The message logged for a render error. *)
Definition render_error_message (error : FormatError) : string :=
  "Error in module `nodejs`:" ++ String "010"%char (format_error_to_string error).

(** The placeholder names of a template: its variables and style variables. *)
Fixpoint style_placeholders (st : list StyleElement) : list string :=
  match st with
  | [] => []
  | StyleText _ :: rest => style_placeholders rest
  | StyleVariable n :: rest => n :: style_placeholders rest
  end.

Fixpoint placeholders (e : FormatElement) : list string :=
  match e with
  | Text _ => []
  | Var n => [n]
  | TextGroup body sty =>
      app ((fix go (l : list FormatElement) : list string :=
              match l with
              | [] => []
              | x :: xs => app (placeholders x) (go xs)
              end) body)
          (style_placeholders sty)
  end.

Definition template_placeholders (l : list FormatElement) : list string :=
  flat_map placeholders l.

(** Induction on format elements through the nested lists of text groups. *)
Section FormatElementInd.
Variable P : FormatElement -> Prop.
Hypothesis HText : forall s, P (Text s).
Hypothesis HVar : forall n, P (Var n).
Hypothesis HGroup : forall body sty, Forall P body -> P (TextGroup body sty).

Fixpoint format_element_ind' (e : FormatElement) : P e :=
  match e with
  | Text s => HText s
  | Var n => HVar n
  | TextGroup body sty =>
      HGroup body sty
        ((fix go (l : list FormatElement) : Forall P l :=
            match l with
            | [] => Forall_nil P
            | x :: xs => Forall_cons x (format_element_ind' x) (go xs)
            end) body)
  end.
End FormatElementInd.

(** Templates whose text placeholders are [symbol] or [version] and whose
    style placeholders are [style]: the names the module's mappers resolve. *)
Definition style_element_ok (se : StyleElement) : bool :=
  match se with
  | StyleText _ => true
  | StyleVariable n => String.eqb n "style"
  end.

Fixpoint well_placed (e : FormatElement) : bool :=
  match e with
  | Text _ => true
  | Var n => String.eqb n "symbol" || String.eqb n "version"
  | TextGroup body sty =>
      (fix go (l : list FormatElement) : bool :=
         match l with
         | [] => true
         | x :: xs => well_placed x && go xs
         end) body
      && forallb style_element_ok sty
  end.

Definition is_group (e : FormatElement) : bool :=
  match e with
  | TextGroup _ _ => true
  | _ => false
  end.

(** A string of whitespace only. *)
Definition whitespace_only (s : string) : bool := forallb is_whitespace (list_ascii_of_string s).

(** Every text group of the element is styled by the [style] variable alone. *)
Fixpoint groups_use_style (e : FormatElement) : bool :=
  match e with
  | Text _ | Var _ => true
  | TextGroup body sty =>
      (fix go (l : list FormatElement) : bool :=
         match l with [] => true | x :: xs => groups_use_style x && go xs end) body
      && match sty with [StyleVariable n] => String.eqb n "style" | _ => false end
  end.

(** ** End-to-end scenarios of the spec (section 8) *)

Module Scenarios.

Definition default_config : NodejsConfig :=
  mkNodejsConfig
    [Text "via "; TextGroup [Var "symbol"; Var "version"] [StyleVariable "style"]; Text " "]
    "N " "bold green" "bold red".

Definition ctx : Context := mkContext "/work" default_config.

Definition node_v12 (cmd : string) (args : list string) : option CommandOutput :=
  if String.eqb cmd "node" then Some (mkCommandOutput ("v12.0.0" ++ String "010"%char EmptyString) EmptyString)
  else None.

Definition q (s : string) : string := String "034"%char (s ++ String "034"%char EmptyString).

(** The text [{"engines":{"node":"<12.0.0"}}]. *)
Definition manifest_lt12 : string :=
  "{" ++ q "engines" ++ ":{" ++ q "node" ++ ":" ++ q "<12.0.0" ++ "}}".

(** A JSON parser that knows this one text. *)
Definition json_lt12 (s : string) : option Value :=
  if String.eqb s manifest_lt12
  then Some (Object [("engines", Object [("node", JString "<12.0.0")])]) else None.

Definition fs_lt12 (path : string) : option string :=
  if String.eqb path "/work/package.json" then Some manifest_lt12 else None.

Definition pkg_only : list DirEntry := [mkDirEntry "package.json" false].

Definition env_c : Env := mkEnv (Some pkg_only) node_v12 fs_lt12.

(** A [node] whose output holds no [MAJOR.MINOR.PATCH] triple. *)
Definition node_v12_short (cmd : string) (args : list string) : option CommandOutput :=
  if String.eqb cmd "node" then Some (mkCommandOutput ("v12" ++ String "010"%char EmptyString) EmptyString)
  else None.

Definition env_short : Env := mkEnv (Some pkg_only) node_v12_short fs_lt12.

(** Scenario C: the incompatible style, the version trimmed. *)
Example scenario_c :
  run_module (SV := SemverModel.semver_model) json_lt12 ctx env_c =
  (Ret (Some (mkModule "nodejs"
     [mkSegment None "via "; mkSegment (Some "bold red") "N ";
      mkSegment (Some "bold red") "v12.0.0"; mkSegment None " "])),
   [EvExec "node" ["--version"]; EvReadFile "/work/package.json"]).
Proof. reflexivity. Qed.

(** Scenario B: no [engines.node] field. *)
Example scenario_b :
  run_module (SV := SemverModel.semver_model) (fun _ => Some (Object [])) ctx
    (mkEnv (Some pkg_only) node_v12 (fun _ => Some "{}")) =
  (Ret (Some (mkModule "nodejs"
     [mkSegment None "via "; mkSegment (Some "bold green") "N ";
      mkSegment (Some "bold green") "v12.0.0"; mkSegment None " "])),
   [EvExec "node" ["--version"]; EvReadFile "/work/package.json"]).
Proof. reflexivity. Qed.

(** Scenario D: [esy.lock] excludes the directory. *)
Example scenario_d :
  run_module (SV := SemverModel.semver_model) json_lt12 ctx
    (mkEnv (Some (mkDirEntry "esy.lock" true :: pkg_only)) node_v12 fs_lt12) = (Ret None, []).
Proof. reflexivity. Qed.
End Scenarios.

(** ** The regex model *)

Module RegexFacts.

Lemma append_assoc_s (a b c : string) : (a ++ b) ++ c = a ++ (b ++ c).
Proof. induction a as [|x a IH]; simpl; [reflexivity | now rewrite IH]. Qed.

Lemma append_empty_s (a : string) : a ++ EmptyString = a.
Proof. induction a as [|x a IH]; simpl; [reflexivity | now rewrite IH]. Qed.

Lemma span_digits_spec (s d r : string) :
  span_digits s = (d, r) -> s = d ++ r /\ all_digits d = true.
Proof.
  revert d r; induction s as [|c s IH]; intros d r H; simpl in H.
  - inversion H; subst; auto.
  - destruct (is_ascii_digit c) eqn:Hc.
    + destruct (span_digits s) as [d' r'] eqn:Hs. inversion H; subst.
      destruct (IH _ _ eq_refl) as [-> Hd]. simpl. rewrite Hc, Hd. auto.
    + inversion H; subst. auto.
Qed.

Lemma span_digits_app (a r : string) :
  all_digits a = true ->
  span_digits (a ++ r) = (a ++ fst (span_digits r), snd (span_digits r)).
Proof.
  induction a as [|c a IH]; intros H; simpl in *.
  - destruct (span_digits r); reflexivity.
  - apply andb_prop in H as [Hc Ha]. rewrite Hc, (IH Ha). reflexivity.
Qed.

Lemma span_digits_dot (a r : string) :
  all_digits a = true -> span_digits (a ++ String "."%char r) = (a, String "."%char r).
Proof.
  intros H. rewrite (span_digits_app a _ H). simpl. now rewrite append_empty_s.
Qed.

Lemma nonempty_app (a b : string) : nonempty a = true -> nonempty (a ++ b) = true.
Proof. destruct a; simpl; auto; discriminate. Qed.

Lemma all_digits_app (a b : string) :
  all_digits a = true -> all_digits b = true -> all_digits (a ++ b) = true.
Proof.
  induction a as [|c a IH]; intros Ha Hb; simpl in *; auto.
  apply andb_prop in Ha as [Hc Ha]. rewrite Hc, (IH Ha Hb). reflexivity.
Qed.

(** A triple at the head of a string is matched there. *)
Lemma match_at_triple (m post : string) :
  triple_shape m -> match_at (m ++ post) <> None.
Proof.
  intros (a & b & c & -> & Hna & Ha & Hnb & Hb & Hnc & Hc).
  unfold match_at.
  rewrite !append_assoc_s. simpl.
  rewrite (span_digits_dot a _ Ha), Hna. simpl.
  rewrite (span_digits_dot b _ Hb), Hnb. simpl.
  rewrite (span_digits_app c post Hc). simpl.
  rewrite (nonempty_app c _ Hnc). discriminate.
Qed.

(** What [match_at] returns is a triple at the head of the string. *)
Lemma match_at_sound (s m : string) :
  match_at s = Some m -> triple_shape m /\ exists post, s = m ++ post.
Proof.
  unfold match_at.
  destruct (span_digits s) as [d1 r1] eqn:E1.
  destruct (span_digits_spec _ _ _ E1) as [-> H1].
  destruct (nonempty d1) eqn:N1; [|discriminate].
  destruct r1 as [|x r1]; simpl; [discriminate|].
  destruct (Ascii.eqb x "."%char) eqn:X1; [|discriminate].
  apply Ascii.eqb_eq in X1; subst x.
  destruct (span_digits r1) as [d2 r2] eqn:E2.
  destruct (span_digits_spec _ _ _ E2) as [-> H2].
  destruct (nonempty d2) eqn:N2; [|discriminate].
  destruct r2 as [|y r2]; simpl; [discriminate|].
  destruct (Ascii.eqb y "."%char) eqn:Y1; [|discriminate].
  apply Ascii.eqb_eq in Y1; subst y.
  destruct (span_digits r2) as [d3 r3] eqn:E3.
  destruct (span_digits_spec _ _ _ E3) as [-> H3].
  destruct (nonempty d3) eqn:N3; [|discriminate].
  intros H; inversion H; subst m. split.
  - exists d1, d2, d3. repeat split; auto.
  - exists r3. symmetry. rewrite append_assoc_s. simpl. rewrite append_assoc_s. reflexivity.
Qed.

Lemma find_triple_app (pre s : string) :
  match_at s <> None -> find_triple (pre ++ s) <> None.
Proof.
  intros H. induction pre as [|c pre IH]; simpl.
  - destruct s as [|c s]; simpl; destruct (match_at _) eqn:E; try discriminate; contradiction.
  - destruct (match_at (String c (pre ++ s))); [discriminate | exact IH].
Qed.

(** Under the precondition the regex finds a match. *)
Lemma find_triple_complete (s : string) : contains_triple s -> find_triple s <> None.
Proof.
  intros (pre & m & post & -> & Hm).
  apply find_triple_app, match_at_triple, Hm.
Qed.

(** The match found is a substring of the text of the pattern's shape. *)
Lemma find_triple_sound (s m : string) :
  find_triple s = Some m -> triple_shape m /\ exists pre post, s = pre ++ m ++ post.
Proof.
  induction s as [|c s IH]; simpl; intros H.
  - discriminate H.
  - destruct (match_at (String c s)) eqn:E.
    + inversion H; subst. destruct (match_at_sound _ _ E) as [Hm [post Hp]].
      split; [exact Hm|]. exists EmptyString, post. exact Hp.
    + destruct (IH H) as [Hm [pre [post Hp]]]. split; [exact Hm|].
      exists (String c pre), post. simpl. now rewrite Hp.
Qed.

Lemma triple_shape_contains (m : string) : triple_shape m -> contains_triple m.
Proof.
  intros Hm. exists EmptyString, m, EmptyString. simpl. now rewrite append_empty_s.
Qed.

Lemma find_triple_none (s : string) : ~ contains_triple s -> find_triple s = None.
Proof.
  intros Hs. destruct (find_triple s) as [m|] eqn:Hm; [|reflexivity].
  exfalso. apply Hs. destruct (find_triple_sound s m Hm) as [Hshape (pre & post & ->)].
  exists pre, m, post. auto.
Qed.

(** A triple alone is its own match. *)
Lemma match_at_exact (m : string) : triple_shape m -> match_at m = Some m.
Proof.
  intros (a & b & c & -> & Hna & Ha & Hnb & Hb & Hnc & Hc).
  unfold match_at. simpl.
  rewrite (span_digits_dot a _ Ha), Hna. simpl.
  rewrite (span_digits_dot b _ Hb), Hnb. simpl.
  rewrite <- (append_empty_s c) at 1.
  rewrite (span_digits_app c EmptyString Hc). simpl.
  rewrite append_empty_s, Hnc. reflexivity.
Qed.

Lemma find_triple_exact (m : string) : triple_shape m -> find_triple m = Some m.
Proof.
  intros Hm. destruct m as [|x m'] eqn:E; simpl.
  - destruct Hm as (a & b & c & H & Hna & _). destruct a; discriminate.
  - rewrite <- E. rewrite <- E in Hm. now rewrite (match_at_exact _ Hm).
Qed.

End RegexFacts.

(** ** [check_engines_version] *)

Section CheckFacts.
Context `{SV : Semver}.

Lemma check_with_triple (v m s : string) (r : VersionReq) :
  find_triple v = Some m -> VersionReq_parse s = Some r ->
  check_engines_version v (Some s) =
    Ret (match Version_parse m with None => true | Some ver => req_matches r ver end).
Proof.
  intros Hm Hr. unfold check_engines_version, regex_captures.
  rewrite Hr, Hm. simpl. now destruct (Version_parse m).
Qed.

Lemma check_without_triple (v s : string) (r : VersionReq) :
  find_triple v = None -> VersionReq_parse s = Some r ->
  check_engines_version v (Some s) = Panic "called `Option::unwrap()` on a `None` value".
Proof.
  intros Hm Hr. unfold check_engines_version, regex_captures.
  rewrite Hr, Hm. reflexivity.
Qed.

(** The check reads the version string only through its first match. *)
Lemma check_first_match (v m : string) (c : option string) :
  find_triple v = Some m -> check_engines_version v c = check_engines_version m c.
Proof.
  intros Hm. destruct (RegexFacts.find_triple_sound v m Hm) as [Hshape _].
  unfold check_engines_version, regex_captures.
  now rewrite Hm, (RegexFacts.find_triple_exact m Hshape).
Qed.

Lemma check_no_triple (v s : string) (r : VersionReq) :
  VersionReq_parse s = Some r -> ~ contains_triple v ->
  check_engines_version v (Some s) = Panic "called `Option::unwrap()` on a `None` value".
Proof.
  intros Hr Hv. exact (check_without_triple v s r (RegexFacts.find_triple_none v Hv) Hr).
Qed.

(** C10: with no constraint, or one that does not parse, the check is true
    whatever the version string; it can panic only on a present constraint
    that parses and a version string with no [\d+\.\d+\.\d+] match. *)
Theorem check_engines_version_inspects_version_last (c : option string) :
  ((c = None \/ exists s, c = Some s /\ VersionReq_parse s = None) ->
     forall v, check_engines_version v c = Ret true) /\
  (forall v msg, check_engines_version v c = Panic msg ->
     exists s r, c = Some s /\ VersionReq_parse s = Some r /\ find_triple v = None).
Proof.
  split.
  - intros [-> | (s & -> & Hs)] v; [reflexivity|].
    unfold check_engines_version. now rewrite Hs.
  - intros v msg H. destruct c as [s|]; [|discriminate].
    destruct (VersionReq_parse s) as [r|] eqn:Hr.
    + exists s, r. repeat split; auto.
      destruct (find_triple v) as [m|] eqn:Hm; auto.
      rewrite (check_with_triple v m s r Hm Hr) in H. discriminate.
    + unfold check_engines_version in H. rewrite Hr in H. discriminate.
Qed.

(** C1 (as amended): the check is true on an absent or unparseable
    constraint for every version string; on a version string with a
    [\d+\.\d+\.\d+] match it is true exactly when the constraint is absent,
    unparseable, the first match does not parse as a version, or the parsed
    constraint matches it, and false exactly when the constraint parses,
    the first match parses and the constraint does not match it; with a
    constraint that parses and a version string with no such substring, the
    check panics. *)
Theorem check_engines_version_fail_open :
  (forall v, check_engines_version v None = Ret true) /\
  (forall v s, VersionReq_parse s = None -> check_engines_version v (Some s) = Ret true) /\
  (forall v c, contains_triple v ->
     (check_engines_version v c = Ret true <->
        c = None \/ (exists s, c = Some s /\ VersionReq_parse s = None) \/
        (exists s r m, c = Some s /\ VersionReq_parse s = Some r /\ find_triple v = Some m /\
           (Version_parse m = None \/
            exists ver, Version_parse m = Some ver /\ req_matches r ver = true))) /\
     (check_engines_version v c = Ret false <->
        exists s r m ver, c = Some s /\ VersionReq_parse s = Some r /\ find_triple v = Some m /\
           Version_parse m = Some ver /\ req_matches r ver = false)) /\
  (forall v s r, VersionReq_parse s = Some r -> ~ contains_triple v ->
     check_engines_version v (Some s) = Panic "called `Option::unwrap()` on a `None` value").
Proof.
  split; [reflexivity|]. split.
  - intros v s Hs. unfold check_engines_version. now rewrite Hs.
  - split; [|exact check_no_triple].
    intros v c Hv.
    destruct (find_triple v) as [m|] eqn:Hm;
      [|exfalso; exact (RegexFacts.find_triple_complete v Hv Hm)].
    destruct c as [s|].
    2:{ split; split; try discriminate; auto.
        intros (s & r & m' & ver & H & _); discriminate. }
    destruct (VersionReq_parse s) as [r|] eqn:Hr.
    + rewrite (check_with_triple v m s r Hm Hr).
      destruct (Version_parse m) as [ver|] eqn:Hver.
      * split; split.
        -- intros H; inversion H. right; right. exists s, r, m.
           repeat split; auto. right. exists ver. auto.
        -- intros [H | [(s' & H & H') | (s' & r' & m' & H & Hr' & Hm' & H')]];
             [discriminate | inversion H; subst; congruence |].
           inversion H; subst. rewrite Hr in Hr'. inversion Hr'; subst.
           inversion Hm'; subst.
           destruct H' as [H' | (ver' & Hv' & Hmv)]; [congruence|].
           rewrite Hver in Hv'. inversion Hv'; subst. now rewrite Hmv.
        -- intros H; inversion H. exists s, r, m, ver. repeat split; auto.
        -- intros (s' & r' & m' & ver' & H & Hr' & Hm' & Hv' & Hmv).
           inversion H; subst. rewrite Hr in Hr'. inversion Hr'; subst.
           inversion Hm'; subst.
           rewrite Hver in Hv'. inversion Hv'; subst. now rewrite Hmv.
      * split; split.
        -- intros _. right; right. exists s, r, m. repeat split; auto.
        -- reflexivity.
        -- discriminate.
        -- intros (s' & r' & m' & ver' & H & Hr' & Hm' & Hv' & Hmv).
           inversion H; subst. inversion Hm'; subst. congruence.
    + assert (Hc : check_engines_version v (Some s) = Ret true)
        by (unfold check_engines_version; now rewrite Hr).
      rewrite Hc. split; split; auto; try discriminate.
      * intros _. right; left. exists s. auto.
      * intros (s' & r' & m' & ver' & H & Hr' & _). inversion H; subst. congruence.
Qed.

(** C3 (as amended): on a version string containing a [\d+\.\d+\.\d+]
    substring the check never panics; with a constraint that parses it takes
    the first match, a substring of the version string of that shape, and
    returns whether the constraint matches it as a version, or true when the
    match does not parse as a version. *)
Theorem check_engines_version_total (v : string) (c : option string) :
  contains_triple v ->
  (exists b, check_engines_version v c = Ret b) /\
  (forall s r, c = Some s -> VersionReq_parse s = Some r ->
     exists m, find_triple v = Some m /\ triple_shape m /\
       (exists pre post, v = pre ++ m ++ post) /\
       check_engines_version v c =
         Ret (match Version_parse m with None => true | Some ver => req_matches r ver end)).
Proof.
  intros Hv.
  destruct (find_triple v) as [m|] eqn:Hm;
    [|exfalso; exact (RegexFacts.find_triple_complete v Hv Hm)].
  destruct (RegexFacts.find_triple_sound v m Hm) as [Hshape Hsub].
  split.
  - destruct c as [s|]; [|exists true; reflexivity].
    destruct (VersionReq_parse s) as [r|] eqn:Hr.
    + eexists. exact (check_with_triple v m s r Hm Hr).
    + exists true. unfold check_engines_version. now rewrite Hr.
  - intros s r -> Hr. exists m. repeat split; auto.
    exact (check_with_triple v m s r Hm Hr).
Qed.

End CheckFacts.

(** ** [check_engines_version] over the semver model *)

Module NodeChecks.

Lemma v12_contains : contains_triple "v12.0.0".
Proof.
  exists "v", "12.0.0", EmptyString. split; [reflexivity|].
  exists "12", "0", "0". repeat split.
Qed.

(** C6 (as amended): on a version string whose first [\d+\.\d+\.\d+] match
    is [12.0.0], the constraint [>=12.0.0] holds and [<12.0.0] does not; and
    every version string is judged by its first match alone, so a string
    containing [12.0.0] only after an earlier triple is judged by that
    earlier triple. *)
Theorem check_node_12 :
  (forall v, find_triple v = Some "12.0.0" ->
     check_node v (Some ">=12.0.0") = Ret true /\ check_node v (Some "<12.0.0") = Ret false) /\
  (forall v m c, find_triple v = Some m -> check_node v c = check_node m c).
Proof.
  split.
  - intros v Hv. unfold check_node.
    split; (erewrite check_with_triple; [ | exact Hv | reflexivity ]); reflexivity.
  - intros v m c Hm. unfold check_node. exact (check_first_match v m c Hm).
Qed.

(** C7 (as amended): on a version string containing a [\d+\.\d+\.\d+]
    substring, the constraints [*] and the empty string hold; on a version
    string without one, both panic, as both constraints parse. *)
Theorem check_node_wildcard :
  (forall v, contains_triple v ->
     check_node v (Some "*") = Ret true /\ check_node v (Some EmptyString) = Ret true) /\
  (forall v, ~ contains_triple v ->
     check_node v (Some "*") = Panic "called `Option::unwrap()` on a `None` value" /\
     check_node v (Some EmptyString) = Panic "called `Option::unwrap()` on a `None` value").
Proof.
  split.
  - intros v Hv.
    destruct (find_triple v) as [m|] eqn:Hm;
      [|exfalso; exact (RegexFacts.find_triple_complete v Hv Hm)].
    unfold check_node.
    split; (erewrite check_with_triple; [ | exact Hm | reflexivity ]);
      simpl; destruct (SemverModel.Version_parse m); reflexivity.
  - intros v Hv. unfold check_node.
    split; (eapply check_no_triple; [reflexivity | exact Hv]).
Qed.

(** C1: a constraint that parses, on a version string with no match, panics
    instead of answering; and [<1.0.0] is answered true on the version
    18446744073709551616.0.0, which it does not match, because that match
    does not fit the version's 64-bit components. *)
Lemma check_node_not_total_cex :
  (exists msg, check_node "node" (Some ">=1.0.0") = Panic msg) /\
  (exists r, SemverModel.VersionReq_parse "<1.0.0" = Some r /\
     find_triple "18446744073709551616.0.0" = Some "18446744073709551616.0.0" /\
     SemverModel.req_matches r (SemverModel.mkVersion (2 ^ 64) 0 0) = false /\
     check_node "18446744073709551616.0.0" (Some "<1.0.0") = Ret true).
Proof.
  split.
  - eexists. reflexivity.
  - eexists. split; [reflexivity|]. repeat split; reflexivity.
Qed.

(** C3: the first match of [node v18446744073709551616.0.0] does not parse
    as a version, its major component 2^64 being one past the largest
    64-bit value, so [<12.0.0] is not evaluated against it: the check is
    true although 18446744073709551616.0.0 does not match [<12.0.0]. *)
Lemma check_node_unparsed_match_cex :
  exists r, SemverModel.VersionReq_parse "<12.0.0" = Some r /\
    find_triple "node v18446744073709551616.0.0" = Some "18446744073709551616.0.0" /\
    SemverModel.Version_parse "18446744073709551616.0.0" = None /\
    SemverModel.req_matches r (SemverModel.mkVersion (2 ^ 64) 0 0) = false /\
    check_node "node v18446744073709551616.0.0" (Some "<12.0.0") = Ret true.
Proof. eexists. split; [reflexivity|]. repeat split; reflexivity. Qed.

(** C6: [10.0.0/12.0.0] embeds [12.0.0], but its first match is [10.0.0],
    so [>=12.0.0] does not hold. *)
Lemma check_node_12_embedded_cex :
  (exists pre post, "10.0.0/12.0.0" = pre ++ "12.0.0" ++ post) /\
  check_node "10.0.0/12.0.0" (Some ">=12.0.0") = Ret false.
Proof.
  split; [|reflexivity].
  exists "10.0.0/", EmptyString. reflexivity.
Qed.

(** C7: [*] parses, so a version string with no match panics. *)
Lemma check_node_wildcard_cex :
  exists msg, check_node "node" (Some "*") = Panic msg.
Proof. eexists. reflexivity. Qed.

Lemma check_node_12_witness :
  find_triple "v12.0.0" = Some "12.0.0" /\
  (check_node "v12.0.0" (Some ">=12.0.0") = Ret true /\
   check_node "v12.0.0" (Some "<12.0.0") = Ret false) /\
  find_triple "10.0.0/12.0.0" = Some "10.0.0" /\
  check_node "10.0.0/12.0.0" (Some ">=12.0.0") = check_node "10.0.0" (Some ">=12.0.0").
Proof.
  split; [reflexivity|]. split; [apply (proj1 check_node_12 "v12.0.0"); reflexivity|].
  split; [reflexivity|]. apply (proj2 check_node_12). reflexivity.
Defined.

Lemma check_node_wildcard_witness :
  (check_node "v12.0.0" (Some "*") = Ret true /\
   check_node "v12.0.0" (Some EmptyString) = Ret true) /\
  (check_node "node" (Some "*") = Panic "called `Option::unwrap()` on a `None` value" /\
   check_node "node" (Some EmptyString) = Panic "called `Option::unwrap()` on a `None` value").
Proof.
  split.
  - apply (proj1 check_node_wildcard "v12.0.0"), v12_contains.
  - apply (proj2 check_node_wildcard "node").
    intros H. exact (RegexFacts.find_triple_complete "node" H eq_refl).
Defined.

Lemma check_engines_version_inspects_version_last_witness :
  check_node "node" (Some "!") = Ret true /\
  (forall msg, check_node "v12.0.0" (Some ">=1") = Panic msg -> False).
Proof.
  split.
  - apply (proj1 (@check_engines_version_inspects_version_last
             SemverModel.semver_model (Some "!"))).
    right. exists "!". split; reflexivity.
  - intros msg H.
    destruct (proj2 (@check_engines_version_inspects_version_last
                 SemverModel.semver_model (Some ">=1")) "v12.0.0" msg H)
      as (s & r & _ & _ & Hf).
    discriminate Hf.
Defined.

Lemma check_engines_version_fail_open_witness :
  check_node "v12.0.0" (Some "<12.0.0") = Ret false /\
  check_node "node" (Some ">=1.0.0") = Panic "called `Option::unwrap()` on a `None` value".
Proof.
  split.
  - apply (proj2 (proj1 (proj2 (proj2 (@check_engines_version_fail_open
             SemverModel.semver_model))) "v12.0.0" (Some "<12.0.0") v12_contains)).
    exists "<12.0.0", [SemverModel.mkComparator SemverModel.Less 12 (Some 0%N) (Some 0%N)],
      "12.0.0", (SemverModel.mkVersion 12 0 0).
    repeat split; reflexivity.
  - apply (proj2 (proj2 (proj2 (@check_engines_version_fail_open SemverModel.semver_model)))
             "node" ">=1.0.0" [SemverModel.mkComparator SemverModel.GreaterEq 1 (Some 0%N) (Some 0%N)]).
    + reflexivity.
    + intros H. exact (RegexFacts.find_triple_complete "node" H eq_refl).
Defined.

Lemma check_engines_version_total_witness :
  exists b, check_node "v12.0.0" (Some ">=12.0.0") = Ret b.
Proof.
  apply (proj1 (@check_engines_version_total SemverModel.semver_model
           "v12.0.0" (Some ">=12.0.0") v12_contains)).
Defined.

End NodeChecks.

(** ** [get_engines_version] and [module] *)

Section ModuleFacts.
Context `{SV : Semver}.
Variable json_from_str : string -> option Value.

Lemma get_engines_version_run (dir : string) (env : Env) (l : list Event) :
  call (R' := option Module) (get_engines_version json_from_str dir) env l =
    (Continue (engines_version_of json_from_str env dir),
     l ++ [EvReadFile (path_join dir "package.json")])%list.
Proof.
  unfold engines_version_of, call, get_engines_version, bind, read_file, question, ret,
    early_return.
  destruct (env_read_file env (path_join dir "package.json")) as [txt|]; simpl; auto.
  destruct (json_from_str txt) as [v|]; simpl; auto.
  destruct (json_get v "engines") as [e|]; simpl; auto.
  destruct (json_get e "node") as [n|]; simpl; auto.
  destruct (as_str n); reflexivity.
Qed.

Lemma module_scan (context : Context) (env : Env) (l : list Event) (dc : list DirEntry) :
  env_dir_contents env = Some dc ->
  module json_from_str context env l =
    if is_relevant dc then module_segment json_from_str context env l else (Exit None, l).
Proof.
  intros H.
  cbv beta delta [module bind try_begin_scan question ret early_return option_map].
  cbv beta iota zeta. repeat (rewrite H; cbv beta iota zeta).
  unfold is_relevant. destruct (negb _ || _); reflexivity.
Qed.

Lemma module_no_scan (context : Context) (env : Env) (l : list Event) :
  env_dir_contents env = None -> module json_from_str context env l = (Exit None, l).
Proof.
  intros H.
  cbv beta delta [module bind try_begin_scan question ret early_return option_map].
  cbv beta iota zeta. rewrite H. reflexivity.
Qed.

Lemma module_segment_no_node (context : Context) (env : Env) (l : list Event) :
  env_exec env "node" ["--version"] = None ->
  module_segment json_from_str context env l = (Exit None, l ++ [EvExec "node" ["--version"]])%list.
Proof.
  intros H. cbv beta delta [module_segment bind exec_cmd question early_return].
  cbv beta iota zeta. rewrite H. reflexivity.
Qed.

Lemma module_segment_node (context : Context) (env : Env) (l : list Event) (out : CommandOutput) :
  env_exec env "node" ["--version"] = Some out ->
  let l1 := ((l ++ [EvExec "node" ["--version"]])
             ++ [EvReadFile (path_join (current_dir context) "package.json")])%list in
  module_segment json_from_str context env l =
    match check_engines_version (stdout out)
            (engines_version_of json_from_str env (current_dir context)) with
    | Panic msg => (Crash msg, l1)
    | Ret b =>
        match render (config context) (stdout out) b with
        | Ok segs => (Continue (Some (mkModule "nodejs" segs)), l1)
        | Err e => (Exit None, l1 ++ [EvLog Warn (render_error_message e)])%list
        end
    end.
Proof.
  intros H l1.
  cbv beta delta [module_segment bind exec_cmd question ret early_return].
  cbv beta iota zeta. rewrite H. cbv beta iota zeta.
  rewrite get_engines_version_run. cbv beta iota zeta.
  unfold lift. destruct (check_engines_version _ _); [|reflexivity].
  cbv beta iota zeta. destruct (render _ _ _); reflexivity.
Qed.

End ModuleFacts.

(** ** Rendering with an unrecognised placeholder *)

Module RenderFacts.

Lemma placeholders_group (body : list FormatElement) (sty : list StyleElement) :
  placeholders (TextGroup body sty) = app (flat_map placeholders body) (style_placeholders sty).
Proof.
  reflexivity.
Qed.

Lemma parse_element_group (sf : StringFormatter) (st : option string)
    (body : list FormatElement) (sty : list StyleElement) :
  parse_element sf st (TextGroup body sty) =
    and_then (resolve_style sf sty) (fun s => parse_elements sf (Some s) body).
Proof.
  simpl. destruct (resolve_style sf sty) as [s|e]; simpl; [|reflexivity].
  induction body as [|x xs IH]; simpl; [reflexivity|].
  destruct (parse_element sf (Some s) x); simpl; [|reflexivity].
  now rewrite IH.
Qed.

Section Unknown.
Variable sf : StringFormatter.
Variable n : string.
Hypothesis Hmeta : sf_meta sf n = None.
Hypothesis Hvars : sf_vars sf n = None.
Hypothesis Hstyle : sf_style sf n = None.

Lemma resolve_style_unknown (sty : list StyleElement) :
  In n (style_placeholders sty) -> exists err, resolve_style sf sty = Err err.
Proof.
  induction sty as [|[s|m] rest IH]; simpl; intros Hin; [contradiction| |].
  - destruct (IH Hin) as [err ->]. eexists; reflexivity.
  - destruct (String.eqb_spec m n) as [->|Hne].
    + rewrite Hstyle. eexists; reflexivity.
    + destruct Hin as [Heq|Hin]; [congruence|].
      destruct (sf_style sf m) as [[s|e]|]; try (eexists; reflexivity).
      destruct (IH Hin) as [err ->]. eexists; reflexivity.
Qed.

Lemma parse_elements_unknown (l : list FormatElement) (st : option string) :
  Forall (fun e => forall st, In n (placeholders e) ->
            exists err, parse_element sf st e = Err err) l ->
  In n (flat_map placeholders l) -> exists err, parse_elements sf st l = Err err.
Proof.
  induction l as [|x xs IH]; simpl; intros Hall Hin; [contradiction|].
  inversion Hall as [|? ? Hx Hxs]; subst.
  apply in_app_or in Hin as [Hin|Hin].
  - destruct (Hx st Hin) as [err ->]. eexists; reflexivity.
  - destruct (parse_element sf st x) as [a|err]; simpl; [|eexists; reflexivity].
    destruct (IH Hxs Hin) as [err ->]. eexists; reflexivity.
Qed.

Lemma parse_element_unknown (e : FormatElement) :
  forall st, In n (placeholders e) -> exists err, parse_element sf st e = Err err.
Proof.
  induction e as [s|m|body sty Hbody] using format_element_ind'; intros st Hin.
  - contradiction.
  - destruct Hin as [<-|[]]. simpl. unfold resolve_variable.
    rewrite Hmeta, Hvars. eexists; reflexivity.
  - rewrite parse_element_group. rewrite placeholders_group in Hin.
    apply in_app_or in Hin as [Hin|Hin].
    + destruct (resolve_style sf sty) as [s|err]; simpl; [|eexists; reflexivity].
      exact (parse_elements_unknown body (Some s) Hbody Hin).
    + destruct (resolve_style_unknown sty Hin) as [err ->]. eexists; reflexivity.
Qed.

Lemma parse_template_unknown (l : list FormatElement) (st : option string) :
  In n (template_placeholders l) -> exists err, parse_elements sf st l = Err err.
Proof.
  apply parse_elements_unknown.
  apply Forall_forall. intros e _ st'. apply parse_element_unknown.
Qed.

End Unknown.

(** The module's formatter rejects every name outside [symbol], [style] and
    [version]. *)
Lemma render_unknown `{SV : Semver} (config : NodejsConfig) (ver : string) (b : bool)
    (n : string) :
  In n (template_placeholders (format config)) -> ~ In n ["symbol"; "style"; "version"] ->
  exists err, render config ver b = Err err.
Proof.
  intros Hin Hn. unfold render, StringFormatter_new, sf_parse. simpl.
  apply parse_template_unknown with (n := n); [| | |exact Hin]; simpl.
  - destruct (String.eqb_spec n "symbol"); [subst; simpl in Hn; tauto | reflexivity].
  - destruct (String.eqb_spec n "version"); [subst; simpl in Hn; tauto | reflexivity].
  - destruct (String.eqb_spec n "style"); [subst; simpl in Hn; tauto | reflexivity].
Qed.

End RenderFacts.

(** ** The module's claims *)

Lemma in_list_In (s : string) (l : list string) : in_list s l = true <-> In s l.
Proof.
  unfold in_list. rewrite existsb_exists. split.
  - intros (x & Hx & Heq). apply String.eqb_eq in Heq. now subst.
  - intros H. exists s. split; [exact H | apply String.eqb_refl].
Qed.

Lemma esy_lock_matches (dc : list DirEntry) :
  In (mkDirEntry "esy.lock" true) dc -> has_any_folder dc ["esy.lock"] = true.
Proof.
  intros H. unfold has_any_folder. apply existsb_exists.
  exists (mkDirEntry "esy.lock" true). split; [exact H | reflexivity].
Qed.

Section ModuleClaims.
Context `{SV : Semver}.
Variable json_from_str : string -> option Value.

(** C2: in a directory with an [esy.lock] subdirectory the relevance test
    fails and the module produces nothing, whatever else the directory
    holds; no command is run and nothing is read or logged. *)
Theorem module_esy_lock_excluded (context : Context) (env : Env) (dc : list DirEntry) :
  env_dir_contents env = Some dc -> In (mkDirEntry "esy.lock" true) dc ->
  is_relevant dc = false /\ run_module json_from_str context env = (Ret None, []).
Proof.
  intros Hdc Hesy.
  assert (Hrel : is_relevant dc = false).
  { unfold is_relevant, is_match. cbn [scan_contents scan_files scan_extensions scan_folders
      set_files set_extensions set_folders].
    rewrite (esy_lock_matches dc Hesy), !orb_true_r. reflexivity. }
  split; [exact Hrel|].
  unfold run_module. rewrite (module_scan json_from_str context env [] dc Hdc), Hrel.
  reflexivity.
Qed.

(** C5: in a directory with no regular file named [package.json] or
    [.node-version], no regular file with extension [js], [mjs], [cjs] or
    [ts], and no [node_modules] subdirectory, the relevance test fails and
    the module produces nothing; no command is run and nothing is rendered. *)
Theorem module_no_marker (context : Context) (env : Env) (dc : list DirEntry) :
  env_dir_contents env = Some dc ->
  (forall e, In e dc -> entry_is_dir e = false ->
     ~ In (entry_name e) ["package.json"; ".node-version"]) ->
  (forall e x, In e dc -> entry_is_dir e = false -> file_extension (entry_name e) = Some x ->
     ~ In x ["js"; "mjs"; "cjs"; "ts"]) ->
  (forall e, In e dc -> entry_is_dir e = true -> entry_name e <> "node_modules") ->
  is_relevant dc = false /\ run_module json_from_str context env = (Ret None, []).
Proof.
  intros Hdc Hfiles Hexts Hfolders.
  assert (Hrel : is_relevant dc = false).
  { unfold is_relevant, is_match. cbn [scan_contents scan_files scan_extensions scan_folders
      set_files set_extensions set_folders].
    assert (Hf : has_any_file_name dc ["package.json"; ".node-version"] = false).
    { destruct (has_any_file_name _ _) eqn:E; [|reflexivity].
      apply existsb_exists in E as (e & Hin & He).
      apply andb_prop in He as [Hd Hn]. apply negb_true_iff in Hd.
      apply in_list_In in Hn. exfalso. exact (Hfiles e Hin Hd Hn). }
    assert (Hx : has_any_extension dc ["js"; "mjs"; "cjs"; "ts"] = false).
    { destruct (has_any_extension _ _) eqn:E; [|reflexivity].
      apply existsb_exists in E as (e & Hin & He).
      apply andb_prop in He as [Hd Hn]. apply negb_true_iff in Hd.
      destruct (file_extension (entry_name e)) as [x|] eqn:Hext; [|discriminate].
      apply in_list_In in Hn. exfalso. exact (Hexts e x Hin Hd Hext Hn). }
    assert (Hd : has_any_folder dc ["node_modules"] = false).
    { destruct (has_any_folder _ _) eqn:E; [|reflexivity].
      apply existsb_exists in E as (e & Hin & He).
      apply andb_prop in He as [Hd Hn].
      apply in_list_In in Hn. destruct Hn as [Hn|[]].
      exfalso. exact (Hfolders e Hin Hd (eq_sym Hn)). }
    rewrite Hf, Hx, Hd. reflexivity. }
  split; [exact Hrel|].
  unfold run_module. rewrite (module_scan json_from_str context env [] dc Hdc), Hrel.
  reflexivity.
Qed.

(** C9: [get_engines_version] always returns to its caller, after reading
    [package.json] in the directory once, and returns [Some s] exactly when
    that file reads, parses as JSON, and holds the string [s] at
    [engines.node]; otherwise it returns [None]. *)
Theorem get_engines_version_manifest_lookup (dir : string) (env : Env) (l : list Event) :
  exists r,
    call (R' := option Module) (get_engines_version json_from_str dir) env l =
      (Continue r, l ++ [EvReadFile (path_join dir "package.json")])%list /\
    (forall s, r = Some s <->
       exists txt v e, env_read_file env (path_join dir "package.json") = Some txt /\
         json_from_str txt = Some v /\ json_get v "engines" = Some e /\
         json_get e "node" = Some (JString s)).
Proof.
  exists (engines_version_of json_from_str env dir).
  split; [apply get_engines_version_run|].
  intros s. unfold engines_version_of, get_engines_version, bind, read_file, question, ret,
    early_return. simpl.
  destruct (env_read_file env (path_join dir "package.json")) as [txt|]; simpl.
  2:{ split; [discriminate|]. intros (? & ? & ? & H & _). discriminate. }
  destruct (json_from_str txt) as [v|] eqn:Hj; simpl.
  2:{ split; [discriminate|]. intros (? & ? & ? & H & Hj' & _). inversion H; subst. congruence. }
  destruct (json_get v "engines") as [e|] eqn:He; simpl.
  2:{ split; [discriminate|]. intros (? & ? & ? & H & Hj' & He' & _).
      inversion H; subst. rewrite Hj in Hj'. inversion Hj'; subst. congruence. }
  destruct (json_get e "node") as [n|] eqn:Hn; simpl.
  2:{ split; [discriminate|]. intros (? & ? & ? & H & Hj' & He' & Hn').
      inversion H; subst. rewrite Hj in Hj'. inversion Hj'; subst.
      rewrite He in He'. inversion He'; subst. congruence. }
  destruct n as [| | | s' | |]; simpl;
    try (split; [discriminate|]; intros (? & ? & ? & H & Hj' & He' & Hn');
         inversion H; subst; rewrite Hj in Hj'; inversion Hj'; subst;
         rewrite He in He'; inversion He'; subst; congruence).
  split.
  - intros H. inversion H; subst. exists txt, v, e. auto.
  - intros (? & ? & ? & H & Hj' & He' & Hn').
    inversion H; subst. rewrite Hj in Hj'. inversion Hj'; subst.
    rewrite He in He'. inversion He'; subst. congruence.
Qed.

End ModuleClaims.

Section ModuleRender.
Context `{SV : Semver}.
Variable json_from_str : string -> option Value.

(** C4: with a template naming a placeholder outside [symbol], [style] and
    [version], rendering fails with a [FormatError]; the module never
    produces a segment; and once it reaches rendering it logs the error at
    warning level and returns [None]. *)
Theorem module_unknown_placeholder (context : Context) (n : string) :
  In n (template_placeholders (format (config context))) ->
  ~ In n ["symbol"; "style"; "version"] ->
  (forall ver b, exists e, render (config context) ver b = Err e) /\
  (forall env m log, run_module json_from_str context env <> (Ret (Some m), log)) /\
  (forall env dc out b,
     env_dir_contents env = Some dc -> is_relevant dc = true ->
     env_exec env "node" ["--version"] = Some out ->
     check_engines_version (stdout out)
       (engines_version_of json_from_str env (current_dir context)) = Ret b ->
     exists e, render (config context) (stdout out) b = Err e /\
       run_module json_from_str context env =
         (Ret None, [EvExec "node" ["--version"];
                     EvReadFile (path_join (current_dir context) "package.json");
                     EvLog Warn (render_error_message e)])).
Proof.
  intros Hin Hn.
  assert (Hr : forall ver b, exists e, render (config context) ver b = Err e)
    by (intros ver b; exact (RenderFacts.render_unknown _ ver b n Hin Hn)).
  split; [exact Hr|]. split.
  - intros env m log. unfold run_module.
    destruct (env_dir_contents env) as [dc|] eqn:Hdc.
    2:{ rewrite (module_no_scan json_from_str context env [] Hdc). discriminate. }
    rewrite (module_scan json_from_str context env [] dc Hdc).
    destruct (is_relevant dc); [|discriminate].
    destruct (env_exec env "node" ["--version"]) as [out|] eqn:Hex.
    2:{ rewrite (module_segment_no_node json_from_str context env [] Hex). discriminate. }
    rewrite (module_segment_node json_from_str context env [] out Hex). simpl.
    destruct (check_engines_version _ _) as [b|msg]; [|discriminate].
    destruct (Hr (stdout out) b) as [e ->]. discriminate.
  - intros env dc out b Hdc Hrel Hex Hcheck.
    destruct (Hr (stdout out) b) as [e He]. exists e. split; [exact He|].
    unfold run_module. rewrite (module_scan json_from_str context env [] dc Hdc), Hrel.
    rewrite (module_segment_node json_from_str context env [] out Hex). simpl.
    rewrite Hcheck, He. reflexivity.
Qed.

(** C8: when the module renders, the version string it holds is the
    command's standard output as captured, untrimmed: the compatibility
    check and the renderer receive it as it is, and the renderer binds the
    [version] placeholder to it with surrounding whitespace trimmed, so a
    template made of [$version] alone renders exactly the trimmed output. *)
Theorem module_version_trimmed_at_render (context : Context) (env : Env) (m : Module)
    (log : list Event) :
  run_module json_from_str context env = (Ret (Some m), log) ->
  exists out b,
    env_exec env "node" ["--version"] = Some out /\
    check_engines_version (stdout out)
      (engines_version_of json_from_str env (current_dir context)) = Ret b /\
    render (config context) (stdout out) b = Ok (segments m) /\
    (forall f, resolve_variable (nodejs_formatter (config context) (stdout out) b f) "version"
               = Ok (trim (stdout out))) /\
    (format (config context) = [Var "version"] ->
       segments m = [mkSegment None (trim (stdout out))]).
Proof.
  intros H. unfold run_module in H.
  destruct (env_dir_contents env) as [dc|] eqn:Hdc.
  2:{ rewrite (module_no_scan json_from_str context env [] Hdc) in H. discriminate. }
  rewrite (module_scan json_from_str context env [] dc Hdc) in H.
  destruct (is_relevant dc); [|discriminate].
  destruct (env_exec env "node" ["--version"]) as [out|] eqn:Hex.
  2:{ rewrite (module_segment_no_node json_from_str context env [] Hex) in H. discriminate. }
  rewrite (module_segment_node json_from_str context env [] out Hex) in H. simpl in H.
  destruct (check_engines_version _ _) as [b|msg] eqn:Hcheck; [|discriminate].
  destruct (render (config context) (stdout out) b) as [segs|e] eqn:Hrender; [|discriminate].
  inversion H; subst m. simpl.
  exists out, b. repeat split; auto.
  intros Hfmt. unfold render, StringFormatter_new, sf_parse in Hrender.
  simpl in Hrender. rewrite Hfmt in Hrender. simpl in Hrender.
  inversion Hrender. reflexivity.
Qed.

End ModuleRender.

(** ** The module's claims on concrete directories *)

Module ModuleWitnesses.
Import Scenarios.

Definition env_esy : Env :=
  mkEnv (Some (mkDirEntry "esy.lock" true :: pkg_only)) node_v12 fs_lt12.

Definition readme_src : list DirEntry := [mkDirEntry "README.md" false; mkDirEntry "src" true].

Definition ctx_unknown : Context :=
  mkContext "/work" (mkNodejsConfig [Text "v"; Var "ver"] "N " "bold green" "bold red").

Definition ctx_version : Context :=
  mkContext "/work" (mkNodejsConfig [Var "version"] "N " "bold green" "bold red").

Lemma module_esy_lock_excluded_witness :
  is_relevant (mkDirEntry "esy.lock" true :: pkg_only) = false /\
  run_module (SV := SemverModel.semver_model) json_lt12 ctx env_esy = (Ret None, []).
Proof.
  apply (@module_esy_lock_excluded SemverModel.semver_model json_lt12 ctx env_esy);
    [reflexivity | left; reflexivity].
Defined.

Lemma module_no_marker_witness :
  is_relevant readme_src = false /\
  run_module (SV := SemverModel.semver_model) json_lt12 ctx
    (mkEnv (Some readme_src) node_v12 fs_lt12) = (Ret None, []).
Proof.
  apply (@module_no_marker SemverModel.semver_model json_lt12 ctx
           (mkEnv (Some readme_src) node_v12 fs_lt12) readme_src).
  - reflexivity.
  - intros e [<-|[<-|[]]] Hd; simpl in *; [|discriminate].
    intros [H|[H|[]]]; discriminate.
  - intros e x [<-|[<-|[]]] Hd Hx; simpl in *; [|discriminate].
    inversion Hx; subst. intros [H|[H|[H|[H|[]]]]]; discriminate.
  - intros e [<-|[<-|[]]] Hd; simpl in *; discriminate.
Defined.

Lemma get_engines_version_manifest_lookup_witness :
  exists r,
    call (R' := option Module) (get_engines_version json_lt12 "/work") env_c [] =
      (Continue r, [EvReadFile "/work/package.json"]) /\ r = Some "<12.0.0".
Proof.
  destruct (@get_engines_version_manifest_lookup SemverModel.semver_model json_lt12
              "/work" env_c []) as [r [Hcall Hiff]].
  exists r. split; [exact Hcall|].
  apply Hiff. exists manifest_lt12, (Object [("engines", Object [("node", JString "<12.0.0")])]),
    (Object [("node", JString "<12.0.0")]).
  repeat split; reflexivity.
Defined.

Lemma module_unknown_placeholder_witness :
  exists e, render ctx_unknown.(config) "v12.0.0" true = Err e /\
    run_module (SV := SemverModel.semver_model) json_lt12 ctx_unknown
      (mkEnv (Some pkg_only) node_v12 (fun _ => None)) =
      (Ret None, [EvExec "node" ["--version"]; EvReadFile "/work/package.json";
                  EvLog Warn (render_error_message e)]).
Proof.
  apply (proj2 (proj2 (@module_unknown_placeholder SemverModel.semver_model json_lt12
           ctx_unknown "ver" (or_introl eq_refl) ltac:(simpl; intuition discriminate)))
         (mkEnv (Some pkg_only) node_v12 (fun _ => None)) pkg_only
         (mkCommandOutput ("v12.0.0" ++ String "010"%char EmptyString) EmptyString) true);
    reflexivity.
Defined.

Lemma module_version_trimmed_at_render_witness :
  exists out b,
    env_exec env_c "node" ["--version"] = Some out /\
    check_node (stdout out)
      (engines_version_of (SV := SemverModel.semver_model) json_lt12 env_c "/work") = Ret b /\
    render (config ctx_version) (stdout out) b = Ok [mkSegment None "v12.0.0"] /\
    (forall f, resolve_variable (nodejs_formatter (config ctx_version) (stdout out) b f) "version"
               = Ok (trim (stdout out))) /\
    (format (config ctx_version) = [Var "version"] ->
       [mkSegment None "v12.0.0"] = [mkSegment None (trim (stdout out))]).
Proof.
  apply (@module_version_trimmed_at_render SemverModel.semver_model json_lt12 ctx_version env_c
           (mkModule "nodejs" [mkSegment None "v12.0.0"])
           [EvExec "node" ["--version"]; EvReadFile "/work/package.json"]).
  reflexivity.
Defined.

End ModuleWitnesses.

(** ** Further properties of [module] *)

Lemma has_any_file_name_spec (dc : list DirEntry) (files : list string) :
  has_any_file_name dc files = true <->
  exists e, In e dc /\ entry_is_dir e = false /\ In (entry_name e) files.
Proof.
  unfold has_any_file_name. rewrite existsb_exists. split.
  - intros (e & Hin & He). apply andb_prop in He as [Hd Hn].
    apply negb_true_iff in Hd. apply in_list_In in Hn. eauto.
  - intros (e & Hin & Hd & Hn). exists e. split; [exact Hin|].
    rewrite Hd. simpl. now apply in_list_In.
Qed.

Lemma has_any_extension_spec (dc : list DirEntry) (exts : list string) :
  has_any_extension dc exts = true <->
  exists e x, In e dc /\ entry_is_dir e = false /\ file_extension (entry_name e) = Some x /\
    In x exts.
Proof.
  unfold has_any_extension. rewrite existsb_exists. split.
  - intros (e & Hin & He). apply andb_prop in He as [Hd Hn].
    apply negb_true_iff in Hd.
    destruct (file_extension (entry_name e)) as [x|] eqn:Hx; [|discriminate].
    apply in_list_In in Hn. exists e, x. auto.
  - intros (e & x & Hin & Hd & Hx & Hn). exists e. split; [exact Hin|].
    rewrite Hd, Hx. simpl. now apply in_list_In.
Qed.

Lemma has_any_folder_spec (dc : list DirEntry) (folders : list string) :
  has_any_folder dc folders = true <->
  exists e, In e dc /\ entry_is_dir e = true /\ In (entry_name e) folders.
Proof.
  unfold has_any_folder. rewrite existsb_exists. split.
  - intros (e & Hin & He). apply andb_prop in He as [Hd Hn].
    apply in_list_In in Hn. eauto.
  - intros (e & Hin & Hd & Hn). exists e. split; [exact Hin|].
    rewrite Hd. simpl. now apply in_list_In.
Qed.

Lemma has_esy_lock_spec (dc : list DirEntry) :
  has_any_folder dc ["esy.lock"] = true <-> In (mkDirEntry "esy.lock" true) dc.
Proof.
  rewrite has_any_folder_spec. split.
  - intros ([n d] & Hin & Hd & [Hn|[]]). simpl in *. now subst.
  - intros Hin. exists (mkDirEntry "esy.lock" true). simpl. auto.
Qed.

Lemma has_any_extension_nil (dc : list DirEntry) : has_any_extension dc [] = false.
Proof.
  unfold has_any_extension. induction dc as [|e dc IH]; [reflexivity|].
  cbn [existsb]. rewrite IH.
  destruct (entry_is_dir e), (file_extension (entry_name e)); reflexivity.
Qed.

Lemma has_any_file_name_nil (dc : list DirEntry) : has_any_file_name dc [] = false.
Proof.
  unfold has_any_file_name. induction dc as [|e dc IH]; [reflexivity|].
  cbn [existsb]. rewrite IH. destruct (entry_is_dir e); reflexivity.
Qed.

(** The relevance test of lines 21-35: a directory is relevant exactly when
    it holds a regular file [package.json] or [.node-version], a regular
    file with extension [js], [mjs], [cjs] or [ts], or a [node_modules]
    subdirectory, and no [esy.lock] subdirectory. *)
Theorem is_relevant_spec (dc : list DirEntry) :
  is_relevant dc = true <->
  ((exists e, In e dc /\ entry_is_dir e = false /\
      In (entry_name e) ["package.json"; ".node-version"]) \/
   (exists e x, In e dc /\ entry_is_dir e = false /\ file_extension (entry_name e) = Some x /\
      In x ["js"; "mjs"; "cjs"; "ts"]) \/
   (exists e, In e dc /\ entry_is_dir e = true /\ entry_name e = "node_modules")) /\
  ~ In (mkDirEntry "esy.lock" true) dc.
Proof.
  unfold is_relevant, is_match. cbn [scan_contents scan_files scan_extensions scan_folders
    set_files set_extensions set_folders].
  rewrite has_any_extension_nil, has_any_file_name_nil.
  simpl.
  rewrite negb_orb, negb_involutive, andb_true_iff, negb_true_iff, !orb_true_iff.
  rewrite has_any_extension_spec, has_any_file_name_spec, has_any_folder_spec.
  assert (Hesy : has_any_folder dc ["esy.lock"] = false <-> ~ In (mkDirEntry "esy.lock" true) dc).
  { rewrite <- has_esy_lock_spec. destruct (has_any_folder _ _); intuition congruence. }
  rewrite Hesy.
  assert (Hnm : (exists e, In e dc /\ entry_is_dir e = true /\ In (entry_name e) ["node_modules"])
                <-> (exists e, In e dc /\ entry_is_dir e = true /\ entry_name e = "node_modules")).
  { split; intros (e & H1 & H2 & H3); exists e; repeat split; auto.
    - destruct H3 as [H3|[]]. auto.
    - left. auto. }
  rewrite Hnm. tauto.
Qed.

Section ModuleExtras.
Context `{SV : Semver}.
Variable json_from_str : string -> option Value.

(** [try_begin_scan()?] (lines 22 and 29): when the directory cannot be
    listed the module returns [None] without running a command, reading a
    file or logging. *)
Theorem module_unlisted_directory (context : Context) (env : Env) :
  env_dir_contents env = None -> run_module json_from_str context env = (Ret None, []).
Proof.
  intros H. unfold run_module. now rewrite (module_no_scan json_from_str context env [] H).
Qed.

(** Line 39: in a relevant directory where [node --version] cannot be run,
    the module returns [None] after that one attempt, without reading
    [package.json]. *)
Theorem module_node_missing (context : Context) (env : Env) (dc : list DirEntry) :
  env_dir_contents env = Some dc -> is_relevant dc = true ->
  env_exec env "node" ["--version"] = None ->
  run_module json_from_str context env = (Ret None, [EvExec "node" ["--version"]]).
Proof.
  intros Hdc Hrel Hex. unfold run_module.
  rewrite (module_scan json_from_str context env [] dc Hdc), Hrel.
  now rewrite (module_segment_no_node json_from_str context env [] Hex).
Qed.

(** A module is produced only for a listed, relevant directory where
    [node --version] ran; the run then has invoked [node --version] once,
    read [package.json] once, in that order, and logged nothing. *)
Theorem module_rendered_effects (context : Context) (env : Env) (m : Module)
    (log : list Event) :
  run_module json_from_str context env = (Ret (Some m), log) ->
  exists dc out,
    env_dir_contents env = Some dc /\ is_relevant dc = true /\
    env_exec env "node" ["--version"] = Some out /\
    log = [EvExec "node" ["--version"];
           EvReadFile (path_join (current_dir context) "package.json")] /\
    module_name m = "nodejs".
Proof.
  intros H. unfold run_module in H.
  destruct (env_dir_contents env) as [dc|] eqn:Hdc.
  2:{ rewrite (module_no_scan json_from_str context env [] Hdc) in H. discriminate. }
  rewrite (module_scan json_from_str context env [] dc Hdc) in H.
  destruct (is_relevant dc) eqn:Hrel; [|discriminate].
  destruct (env_exec env "node" ["--version"]) as [out|] eqn:Hex.
  2:{ rewrite (module_segment_no_node json_from_str context env [] Hex) in H. discriminate. }
  rewrite (module_segment_node json_from_str context env [] out Hex) in H. simpl in H.
  destruct (check_engines_version _ _) as [b|msg]; [|discriminate].
  destruct (render _ _ _) as [segs|e]; [|discriminate].
  inversion H; subst. exists dc, out. repeat split; auto.
Qed.

(** The module panics only in [check_engines_version] (lines 92-97): the
    directory is relevant, [node --version] ran, [package.json] gave a
    constraint that parses, and the command's output has no
    [\d+\.\d+\.\d+] match. *)
Theorem module_panic_cause (context : Context) (env : Env) (msg : string) (log : list Event) :
  run_module json_from_str context env = (Panic msg, log) ->
  exists dc out s r,
    env_dir_contents env = Some dc /\ is_relevant dc = true /\
    env_exec env "node" ["--version"] = Some out /\
    engines_version_of json_from_str env (current_dir context) = Some s /\
    VersionReq_parse s = Some r /\ find_triple (stdout out) = None /\
    log = [EvExec "node" ["--version"];
           EvReadFile (path_join (current_dir context) "package.json")].
Proof.
  intros H. unfold run_module in H.
  destruct (env_dir_contents env) as [dc|] eqn:Hdc.
  2:{ rewrite (module_no_scan json_from_str context env [] Hdc) in H. discriminate. }
  rewrite (module_scan json_from_str context env [] dc Hdc) in H.
  destruct (is_relevant dc) eqn:Hrel; [|discriminate].
  destruct (env_exec env "node" ["--version"]) as [out|] eqn:Hex.
  2:{ rewrite (module_segment_no_node json_from_str context env [] Hex) in H. discriminate. }
  rewrite (module_segment_node json_from_str context env [] out Hex) in H. simpl in H.
  destruct (check_engines_version _ _) as [b|msg'] eqn:Hcheck.
  { destruct (render _ _ _); discriminate. }
  inversion H; subst.
  destruct (engines_version_of json_from_str env (current_dir context)) as [s|];
    [|discriminate].
  destruct (VersionReq_parse s) as [r|] eqn:Hr.
  2:{ unfold check_engines_version in Hcheck. rewrite Hr in Hcheck. discriminate. }
  destruct (find_triple (stdout out)) as [m|] eqn:Hm.
  { rewrite (check_with_triple _ m s r Hm Hr) in Hcheck. discriminate. }
  exists dc, out, s, r. repeat split; auto.
Qed.

End ModuleExtras.

(** ** Rendering with the module's formatter *)

Section RenderExtras.
Variable config : NodejsConfig.
Variable nodejs_version : string.
Variable in_engines_range : bool.
Variable formatter : StringFormatter.

Let sf := nodejs_formatter config nodejs_version in_engines_range formatter.
Let chosen := if in_engines_range then style config else not_capable_style config.

Lemma well_placed_group (body : list FormatElement) (sty : list StyleElement) :
  well_placed (TextGroup body sty) = forallb well_placed body && forallb style_element_ok sty.
Proof.
  reflexivity.
Qed.

Lemma groups_use_style_group (body : list FormatElement) (sty : list StyleElement) :
  groups_use_style (TextGroup body sty) =
    forallb groups_use_style body
    && match sty with [StyleVariable n] => String.eqb n "style" | _ => false end.
Proof.
  reflexivity.
Qed.

Lemma forallb_cons_local {A} (f : A -> bool) (x : A) (xs : list A) :
  forallb f (x :: xs) = f x && forallb f xs.
Proof. reflexivity. Qed.

Lemma sf_style_eq (n : string) :
  sf_style sf n = if String.eqb n "style" then Some (Ok chosen) else None.
Proof.
  unfold sf, chosen. simpl. destruct (String.eqb n "style"), in_engines_range; reflexivity.
Qed.

Lemma resolve_style_nodejs (sty : list StyleElement) :
  (exists s, resolve_style sf sty = Ok s) <-> forallb style_element_ok sty = true.
Proof.
  induction sty as [|[t|n] rest IH]; cbn [resolve_style forallb style_element_ok].
  - split; [reflexivity | eauto].
  - rewrite <- IH. destruct (resolve_style sf rest) as [r|e]; simpl.
    + split; eauto.
    + split; [intros [? H]; discriminate | intros [? H]; discriminate].
  - rewrite sf_style_eq. destruct (String.eqb n "style"); simpl.
    + rewrite <- IH. destruct (resolve_style sf rest) as [r|e]; simpl.
      * split; eauto.
      * split; [intros [? H]; discriminate | intros [? H]; discriminate].
    + split; [intros [? H]; discriminate | discriminate].
Qed.

Lemma resolve_variable_nodejs (n : string) :
  (exists v, resolve_variable sf n = Ok v) <->
  (String.eqb n "symbol" || String.eqb n "version") = true.
Proof.
  unfold resolve_variable, sf. simpl.
  destruct (String.eqb n "symbol"); simpl; [split; eauto|].
  destruct (String.eqb n "version"); simpl; [split; eauto|].
  split; [intros [? H]; discriminate | discriminate].
Qed.

Lemma parse_elements_nodejs (l : list FormatElement) (st : option string) :
  Forall (fun e => forall st, (exists segs, parse_element sf st e = Ok segs) <->
                              well_placed e = true) l ->
  (exists segs, parse_elements sf st l = Ok segs) <-> forallb well_placed l = true.
Proof.
  induction l as [|x xs IH]; simpl; intros Hall; [split; eauto|].
  inversion Hall as [|? ? Hx Hxs]; subst.
  rewrite andb_true_iff, <- (Hx st), <- (IH Hxs).
  destruct (parse_element sf st x) as [a|e]; simpl.
  - destruct (parse_elements sf st xs) as [b|e]; simpl.
    + split; eauto.
    + split; [intros [? H]; discriminate | intros [_ [? H]]; discriminate].
  - split; [intros [? H]; discriminate | intros [[? H] _]; discriminate].
Qed.

Lemma parse_element_nodejs (e : FormatElement) :
  forall st, (exists segs, parse_element sf st e = Ok segs) <-> well_placed e = true.
Proof.
  induction e as [t|n|body sty Hbody] using format_element_ind'; intros st.
  - simpl. split; eauto.
  - simpl. rewrite <- resolve_variable_nodejs.
    destruct (resolve_variable sf n) as [v|err]; simpl.
    + split; eauto.
    + split; intros [? H]; discriminate.
  - rewrite RenderFacts.parse_element_group, well_placed_group, andb_true_iff,
      <- resolve_style_nodejs.
    destruct (resolve_style sf sty) as [s|err]; simpl.
    + rewrite (parse_elements_nodejs body (Some s) Hbody). split; [eauto | tauto].
    + split; [intros [? H]; discriminate | intros [_ [? H]]; discriminate].
Qed.

(** Segment styles: an element parsed under the default style [st] gives
    segments styled [st] or, inside a group, the group's style. *)
Lemma parse_element_styles (e : FormatElement) :
  forall st segs, groups_use_style e = true ->
  (st = None \/ st = Some chosen) ->
  parse_element sf st e = Ok segs ->
  Forall (fun seg => seg_style seg = None \/ seg_style seg = Some chosen) segs.
Proof.
  induction e as [t|n|body sty Hbody] using format_element_ind'; intros st segs Hg Hst H.
  - simpl in H. inversion H; subst. constructor; [exact Hst | constructor].
  - simpl in H. destruct (resolve_variable sf n); simpl in H; [|discriminate].
    inversion H; subst. constructor; [exact Hst | constructor].
  - rewrite RenderFacts.parse_element_group in H.
    rewrite groups_use_style_group, andb_true_iff in Hg. destruct Hg as [Hb Hs].
    destruct sty as [|[t|n] [|y ys]]; try discriminate.
    apply String.eqb_eq in Hs; subst n.
    cbn [resolve_style] in H. rewrite sf_style_eq in H.
    cbn [String.eqb Ascii.eqb Bool.eqb and_then] in H.
    rewrite RegexFacts.append_empty_s in H.
    clear Hst. revert segs H Hb.
    induction body as [|x xs IH]; intros segs H Hb; cbn [parse_elements] in H.
    + inversion H; subst. constructor.
    + inversion Hbody as [|? ? Hx Hxs]; subst.
      rewrite (forallb_cons_local groups_use_style x xs) in Hb.
      apply andb_prop in Hb as [Hbx Hbxs].
      destruct (parse_element sf (Some chosen) x) as [a|err] eqn:Ha; cbn [and_then] in H;
        [|discriminate].
      destruct (parse_elements sf (Some chosen) xs) as [b|err] eqn:Hbs; cbn [and_then] in H;
        [|discriminate].
      inversion H; subst. apply Forall_app. split.
      * exact (Hx (Some chosen) a Hbx (or_intror eq_refl) Ha).
      * exact (IH Hxs b eq_refl Hbxs).
Qed.

Lemma parse_elements_styles (l : list FormatElement) (segs : list Segment) :
  forallb groups_use_style l = true -> parse_elements sf None l = Ok segs ->
  Forall (fun seg => seg_style seg = None \/ seg_style seg = Some chosen) segs.
Proof.
  revert segs. induction l as [|x xs IH]; intros segs Hg H; cbn [parse_elements] in H.
  - inversion H; subst. constructor.
  - rewrite forallb_cons_local in Hg. apply andb_prop in Hg as [Hx Hxs].
    destruct (parse_element sf None x) as [a|err] eqn:Ha; cbn [and_then] in H; [|discriminate].
    destruct (parse_elements sf None xs) as [b|err] eqn:Hb; cbn [and_then] in H; [|discriminate].
    inversion H; subst. apply Forall_app. split.
    + exact (parse_element_styles x None a Hx (or_introl eq_refl) Ha).
    + exact (IH b Hxs eq_refl).
Qed.

End RenderExtras.

(** The module's template renders (lines 42-63) exactly when every text
    placeholder is [symbol] or [version] and every style placeholder is
    [style]; the version string and the check result play no part. *)
Theorem render_ok_iff (config : NodejsConfig) (nodejs_version : string)
    (in_engines_range : bool) :
  (exists segs, render config nodejs_version in_engines_range = Ok segs) <->
  forallb well_placed (format config) = true.
Proof.
  unfold render, sf_parse. cbn [and_then StringFormatter_new].
  apply parse_elements_nodejs. apply Forall_forall. intros e _ st.
  apply parse_element_nodejs.
Qed.

(** Lines 48-57: when every text group of the template is styled by the
    [style] variable alone, each rendered segment is unstyled (top-level
    text) or styled with [style] when the check holds and
    [not_capable_style] when it does not. *)
Theorem render_segment_styles (config : NodejsConfig) (nodejs_version : string)
    (in_engines_range : bool) (segs : list Segment) :
  forallb groups_use_style (format config) = true ->
  render config nodejs_version in_engines_range = Ok segs ->
  Forall (fun seg => seg_style seg = None \/
    seg_style seg = Some (if in_engines_range then style config else not_capable_style config))
    segs.
Proof.
  intros Hg H. unfold render, sf_parse in H. cbn [and_then StringFormatter_new] in H.
  exact (parse_elements_styles config nodejs_version in_engines_range _ (format config) segs Hg H).
Qed.

Section ModuleRenderExtras.
Context `{SV : Semver}.
Variable json_from_str : string -> option Value.

(** Lines 42-71 after a check that did not panic: with a well-placed
    template the module is produced, after running [node --version] and
    reading [package.json] and without logging; otherwise the module is
    [None], rendering fails with an error, and exactly one warning carrying
    that error follows those two effects. *)
Theorem module_render_outcome (context : Context) (env : Env) (dc : list DirEntry)
    (out : CommandOutput) (b : bool) :
  env_dir_contents env = Some dc -> is_relevant dc = true ->
  env_exec env "node" ["--version"] = Some out ->
  check_engines_version (stdout out)
    (engines_version_of json_from_str env (current_dir context)) = Ret b ->
  (forallb well_placed (format (config context)) = true ->
     exists segs, run_module json_from_str context env =
       (Ret (Some (mkModule "nodejs" segs)),
        [EvExec "node" ["--version"];
         EvReadFile (path_join (current_dir context) "package.json")])) /\
  (forallb well_placed (format (config context)) = false ->
     exists e, render (config context) (stdout out) b = Err e /\
       run_module json_from_str context env =
       (Ret None,
        [EvExec "node" ["--version"];
         EvReadFile (path_join (current_dir context) "package.json");
         EvLog Warn (render_error_message e)])).
Proof.
  intros Hdc Hrel Hex Hcheck. unfold run_module.
  rewrite (module_scan json_from_str context env [] dc Hdc), Hrel.
  rewrite (module_segment_node json_from_str context env [] out Hex). simpl.
  rewrite Hcheck.
  pose proof (render_ok_iff (config context) (stdout out) b) as Hiff.
  split; intros Hw.
  - destruct (proj2 Hiff Hw) as [segs Hsegs]. rewrite Hsegs. eauto.
  - destruct (render (config context) (stdout out) b) as [segs|e].
    + rewrite (proj1 Hiff (ex_intro _ segs eq_refl)) in Hw. discriminate.
    + exists e. split; reflexivity.
Qed.

End ModuleRenderExtras.

(** ** Surrounding whitespace and the version check *)

Module TrimFacts.

Lemma whitespace_not_digit_dot (c : ascii) :
  is_whitespace c = true -> is_ascii_digit c = false /\ Ascii.eqb c "."%char = false.
Proof.
  intros H. destruct c as [[] [] [] [] [] [] [] []];
    first [discriminate H | split; reflexivity].
Qed.

Lemma whitespace_only_cons (c : ascii) (w : string) :
  whitespace_only (String c w) = is_whitespace c && whitespace_only w.
Proof. reflexivity. Qed.

Lemma match_at_whitespace (c : ascii) (s : string) :
  is_whitespace c = true -> match_at (String c s) = None.
Proof.
  intros H. destruct (whitespace_not_digit_dot c H) as [Hd _].
  unfold match_at. simpl. now rewrite Hd.
Qed.

Lemma find_triple_whitespace_prefix (w s : string) :
  whitespace_only w = true -> find_triple (w ++ s) = find_triple s.
Proof.
  induction w as [|c w IH]; intros H; [reflexivity|].
  rewrite whitespace_only_cons in H. apply andb_prop in H as [Hc Hw].
  simpl. rewrite (match_at_whitespace c _ Hc). exact (IH Hw).
Qed.

Lemma span_digits_whitespace_suffix (s w : string) :
  whitespace_only w = true ->
  span_digits (s ++ w) = (fst (span_digits s), (snd (span_digits s) ++ w)%string).
Proof.
  intros Hw. induction s as [|c s IH]; simpl.
  - destruct w as [|c w]; [reflexivity|].
    rewrite whitespace_only_cons in Hw. apply andb_prop in Hw as [Hc _].
    simpl. now rewrite (proj1 (whitespace_not_digit_dot c Hc)).
  - destruct (is_ascii_digit c); [|reflexivity].
    rewrite IH. destruct (span_digits s); reflexivity.
Qed.

Lemma after_dot_whitespace_suffix (r w : string) :
  whitespace_only w = true ->
  after_dot (r ++ w) = option_map (fun x => (x ++ w)%string) (after_dot r).
Proof.
  intros Hw. destruct r as [|c r]; simpl.
  - destruct w as [|c w]; [reflexivity|].
    rewrite whitespace_only_cons in Hw. apply andb_prop in Hw as [Hc _].
    simpl. now rewrite (proj2 (whitespace_not_digit_dot c Hc)).
  - destruct (Ascii.eqb c "."%char); reflexivity.
Qed.

Lemma match_at_whitespace_suffix (s w : string) :
  whitespace_only w = true -> match_at (s ++ w) = match_at s.
Proof.
  intros Hw. unfold match_at.
  rewrite (span_digits_whitespace_suffix s w Hw).
  destruct (span_digits s) as [d1 r1]; cbn [fst snd].
  destruct (nonempty d1); [|reflexivity].
  rewrite (after_dot_whitespace_suffix r1 w Hw).
  destruct (after_dot r1) as [r1'|]; cbn [option_map]; [|reflexivity].
  rewrite (span_digits_whitespace_suffix r1' w Hw).
  destruct (span_digits r1') as [d2 r2]; cbn [fst snd].
  destruct (nonempty d2); [|reflexivity].
  rewrite (after_dot_whitespace_suffix r2 w Hw).
  destruct (after_dot r2) as [r2'|]; cbn [option_map]; [|reflexivity].
  rewrite (span_digits_whitespace_suffix r2' w Hw).
  destruct (span_digits r2'); reflexivity.
Qed.

Lemma find_triple_whitespace (w : string) :
  whitespace_only w = true -> find_triple w = None.
Proof.
  induction w as [|c w IH]; intros H; [reflexivity|].
  rewrite whitespace_only_cons in H. apply andb_prop in H as [Hc Hw].
  simpl. rewrite (match_at_whitespace c _ Hc). exact (IH Hw).
Qed.

Lemma find_triple_whitespace_suffix (s w : string) :
  whitespace_only w = true -> find_triple (s ++ w) = find_triple s.
Proof.
  intros Hw. induction s as [|c s IH].
  - exact (find_triple_whitespace w Hw).
  - change (String c s ++ w)%string with (String c (s ++ w)).
    simpl. change (String c (s ++ w)) with (String c s ++ w)%string.
    rewrite (match_at_whitespace_suffix (String c s) w Hw).
    destruct (match_at (String c s)); [reflexivity|exact IH].
Qed.

Lemma trim_start_split (s : string) :
  exists w, s = (w ++ trim_start s)%string /\ whitespace_only w = true.
Proof.
  induction s as [|c s IH]; simpl.
  - exists EmptyString. split; reflexivity.
  - destruct (is_whitespace c) eqn:Hc.
    + destruct IH as (w & Hs & Hw). exists (String c w). simpl.
      rewrite <- Hs, whitespace_only_cons, Hc, Hw. split; reflexivity.
    + exists EmptyString. split; reflexivity.
Qed.

Lemma list_ascii_of_string_app (a b : string) :
  list_ascii_of_string (a ++ b) = (list_ascii_of_string a ++ list_ascii_of_string b)%list.
Proof. induction a as [|c a IH]; simpl; [reflexivity | now rewrite IH]. Qed.

Lemma string_of_list_ascii_app (a b : list ascii) :
  string_of_list_ascii (a ++ b) = (string_of_list_ascii a ++ string_of_list_ascii b)%string.
Proof. induction a as [|c a IH]; simpl; [reflexivity | now rewrite IH]. Qed.

Lemma rev_string_involutive (s : string) : rev_string (rev_string s) = s.
Proof.
  unfold rev_string. rewrite list_ascii_of_string_of_list_ascii, rev_involutive.
  apply string_of_list_ascii_of_string.
Qed.

Lemma rev_string_app (a b : string) :
  rev_string (a ++ b) = (rev_string b ++ rev_string a)%string.
Proof.
  unfold rev_string. rewrite list_ascii_of_string_app, rev_app_distr.
  apply string_of_list_ascii_app.
Qed.

Lemma whitespace_only_rev (w : string) :
  whitespace_only (rev_string w) = whitespace_only w.
Proof.
  unfold whitespace_only, rev_string. rewrite list_ascii_of_string_of_list_ascii.
  destruct (forallb is_whitespace (list_ascii_of_string w)) eqn:H.
  - apply forallb_forall. intros x Hx. apply in_rev in Hx.
    exact (proj1 (forallb_forall _ _) H x Hx).
  - apply not_true_iff_false. intros Hr. apply not_true_iff_false in H. apply H.
    apply forallb_forall. intros x Hx. apply in_rev in Hx.
    exact (proj1 (forallb_forall _ _) Hr x Hx).
Qed.

Lemma trim_end_split (s : string) :
  exists w, s = (trim_end s ++ w)%string /\ whitespace_only w = true.
Proof.
  destruct (trim_start_split (rev_string s)) as (w & Hs & Hw).
  exists (rev_string w). split.
  - unfold trim_end. rewrite <- rev_string_app, <- Hs.
    symmetry. apply rev_string_involutive.
  - now rewrite whitespace_only_rev.
Qed.

Lemma find_triple_trim (s : string) : find_triple (trim s) = find_triple s.
Proof.
  destruct (trim_start_split s) as (w1 & H1 & Hw1).
  destruct (trim_end_split (trim_start s)) as (w2 & H2 & Hw2).
  unfold trim. rewrite H1 at 2. rewrite H2 at 2.
  rewrite (find_triple_whitespace_prefix w1 _ Hw1).
  symmetry. exact (find_triple_whitespace_suffix _ w2 Hw2).
Qed.

End TrimFacts.

(** Lines 39, 59 and 91-97: the check reads the untrimmed output of
    [node --version] while the prompt shows it trimmed; whitespace around
    the output never changes the check, so trimming before checking would
    give the same result, panic included. *)
Theorem check_engines_version_trim `{SV : Semver} (nodejs_version : string)
    (engines_version : option string) :
  check_engines_version (trim nodejs_version) engines_version =
  check_engines_version nodejs_version engines_version.
Proof.
  unfold check_engines_version, regex_captures. now rewrite TrimFacts.find_triple_trim.
Qed.

Module ExtraWitnesses.
Import Scenarios.

Lemma module_unlisted_directory_witness :
  env_dir_contents (mkEnv None node_v12 fs_lt12) = None /\
  run_module (SV := SemverModel.semver_model) json_lt12 ctx (mkEnv None node_v12 fs_lt12) =
    (Ret None, []).
Proof.
  split; [reflexivity|].
  apply (@module_unlisted_directory SemverModel.semver_model json_lt12 ctx
           (mkEnv None node_v12 fs_lt12)).
  reflexivity.
Defined.

Lemma module_node_missing_witness :
  env_dir_contents (mkEnv (Some pkg_only) (fun _ _ => None) fs_lt12) = Some pkg_only /\
  is_relevant pkg_only = true /\
  run_module (SV := SemverModel.semver_model) json_lt12 ctx
    (mkEnv (Some pkg_only) (fun _ _ => None) fs_lt12) = (Ret None, [EvExec "node" ["--version"]]).
Proof.
  split; [reflexivity|]. split; [reflexivity|].
  apply (@module_node_missing SemverModel.semver_model json_lt12 ctx
           (mkEnv (Some pkg_only) (fun _ _ => None) fs_lt12) pkg_only); reflexivity.
Defined.

Lemma module_rendered_effects_witness :
  run_module (SV := SemverModel.semver_model) json_lt12 ctx env_c =
    (Ret (Some (mkModule "nodejs"
       [mkSegment None "via "; mkSegment (Some "bold red") "N ";
        mkSegment (Some "bold red") "v12.0.0"; mkSegment None " "])),
     [EvExec "node" ["--version"]; EvReadFile "/work/package.json"]) /\
  exists dc out,
    env_dir_contents env_c = Some dc /\ is_relevant dc = true /\
    env_exec env_c "node" ["--version"] = Some out /\
    [EvExec "node" ["--version"]; EvReadFile "/work/package.json"] =
      [EvExec "node" ["--version"]; EvReadFile (path_join (current_dir ctx) "package.json")] /\
    module_name (mkModule "nodejs"
       [mkSegment None "via "; mkSegment (Some "bold red") "N ";
        mkSegment (Some "bold red") "v12.0.0"; mkSegment None " "]) = "nodejs".
Proof.
  split; [vm_compute; reflexivity|].
  apply (@module_rendered_effects SemverModel.semver_model json_lt12 ctx env_c).
  vm_compute. reflexivity.
Defined.

Lemma module_panic_cause_witness :
  run_module (SV := SemverModel.semver_model) json_lt12 ctx env_short =
    (Panic "called `Option::unwrap()` on a `None` value",
     [EvExec "node" ["--version"]; EvReadFile "/work/package.json"]) /\
  exists dc out s r,
    env_dir_contents env_short = Some dc /\ is_relevant dc = true /\
    env_exec env_short "node" ["--version"] = Some out /\
    engines_version_of (SV := SemverModel.semver_model) json_lt12 env_short (current_dir ctx)
      = Some s /\
    VersionReq_parse (Semver := SemverModel.semver_model) s = Some r /\
    find_triple (stdout out) = None /\
    [EvExec "node" ["--version"]; EvReadFile "/work/package.json"] =
      [EvExec "node" ["--version"]; EvReadFile (path_join (current_dir ctx) "package.json")].
Proof.
  split; [vm_compute; reflexivity|].
  apply (@module_panic_cause SemverModel.semver_model json_lt12 ctx env_short
           "called `Option::unwrap()` on a `None` value").
  vm_compute. reflexivity.
Defined.

Lemma render_segment_styles_witness :
  forallb groups_use_style (format default_config) = true /\
  render default_config "v12.0.0" false =
    Ok [mkSegment None "via "; mkSegment (Some "bold red") "N ";
        mkSegment (Some "bold red") "v12.0.0"; mkSegment None " "] /\
  Forall (fun seg => seg_style seg = None \/
    seg_style seg = Some (if false then style default_config else not_capable_style default_config))
    [mkSegment None "via "; mkSegment (Some "bold red") "N ";
     mkSegment (Some "bold red") "v12.0.0"; mkSegment None " "].
Proof.
  split; [reflexivity|]. split; [vm_compute; reflexivity|].
  apply (render_segment_styles default_config "v12.0.0" false);
    vm_compute; reflexivity.
Defined.

Lemma module_render_outcome_witness :
  check_node (stdout (mkCommandOutput ("v12.0.0" ++ String "010"%char EmptyString) EmptyString))
    (engines_version_of (SV := SemverModel.semver_model) json_lt12 env_c (current_dir ctx))
    = Ret false /\
  (forallb well_placed (format (config ctx)) = true ->
     exists segs, run_module (SV := SemverModel.semver_model) json_lt12 ctx env_c =
       (Ret (Some (mkModule "nodejs" segs)),
        [EvExec "node" ["--version"];
         EvReadFile (path_join (current_dir ctx) "package.json")])) /\
  (forallb well_placed (format (config ctx)) = false ->
     exists e, render (config ctx)
       (stdout (mkCommandOutput ("v12.0.0" ++ String "010"%char EmptyString) EmptyString))
       false = Err e /\
     run_module (SV := SemverModel.semver_model) json_lt12 ctx env_c =
       (Ret None,
        [EvExec "node" ["--version"];
         EvReadFile (path_join (current_dir ctx) "package.json");
         EvLog Warn (render_error_message e)])).
Proof.
  split; [vm_compute; reflexivity|].
  apply (@module_render_outcome SemverModel.semver_model json_lt12 ctx env_c pkg_only
           (mkCommandOutput ("v12.0.0" ++ String "010"%char EmptyString) EmptyString) false);
    vm_compute; reflexivity.
Defined.

End ExtraWitnesses.
